(** * Ensembler: one-dimensional bias potentials and the perturbed system

    A shallow embedding of
      - [ensembler/potentials/biased_potentials/biasOneD.py]
        ([_bias_baseclass], [metadynamicsPotential]) and
      - [ensembler/system/perturbed_system.py] ([perturbedSystem]),
    followed by the properties proved about them.

    Conventions.  Python floats and ints that stand for positions and
    energies are exact rationals [Q]; integer counters are [Z]; array
    subscripts computed by [np.searchsorted] are [nat].  A Python call
    either returns a value or raises: it is a [result].  The numpy
    functions the code calls are modelled on scalars and one-dimensional
    arrays in module [Numpy]; classes the two files import from the rest of
    the package ([gaussPotential], the base classes of the potentials and
    of the system) are inputs of the definitions that use them. *)

From Stdlib Require Import String.
From Stdlib Require Import QArith Qabs ZArith List Lia Lqa Bool Permutation.
Import ListNotations.

(** ** Exceptions and results *)

Inductive exn : Type :=
| NameError
| TypeError
| ValueError
| ZeroDivisionError
| IndexError
| AttributeError.

Inductive result (A : Type) : Type :=
| Ok (a : A)
| Raise (e : exn).

Arguments Ok {A} a.
Arguments Raise {A} e.

Definition bind {A B : Type} (c : result A) (k : A -> result B) : result B :=
  match c with
  | Ok a => k a
  | Raise e => Raise e
  end.

Notation "x <- c ;; k" := (bind c (fun x => k))
  (at level 61, c at next level, right associativity).

Definition is_ok {A : Type} (c : result A) : bool :=
  match c with Ok _ => true | Raise _ => false end.

(** [for x in xs: ys.append(f x)]: the first exception ends the loop. *)
Fixpoint mapM {A B : Type} (f : A -> result B) (xs : list A) : result (list B) :=
  match xs with
  | [] => Ok []
  | x :: xs' => y <- f x ;; ys <- mapM f xs' ;; Ok (y :: ys)
  end.

(** Strict comparison of rationals as a boolean. *)
Definition Qltb (x y : Q) : bool := negb (Qle_bool y x).

(** ** The numpy operations used by the code *)

Module Numpy.

(** A value that is either a scalar (a Python number or a 0-d array) or a
    one-dimensional array. *)
Inductive nd (A : Type) : Type :=
| Scalar (a : A)
| Array (l : list A).

Arguments Scalar {A} a.
Arguments Array {A} l.

(** A universal function applied elementwise. *)
Definition nd_map {A B : Type} (f : A -> B) (x : nd A) : nd B :=
  match x with
  | Scalar a => Scalar (f a)
  | Array l => Array (map f l)
  end.

Fixpoint map2 {A B C : Type} (f : A -> B -> C) (l1 : list A) (l2 : list B) : list C :=
  match l1, l2 with
  | a :: l1', b :: l2' => f a b :: map2 f l1' l2'
  | _, _ => []
  end.

(** A binary operation on two 1-d arrays, with numpy's broadcasting: shapes
    [(m,)] and [(n,)] are compatible when [m = n] or one of them is 1. *)
Definition zip_with_broadcast {A B C : Type} (f : A -> B -> C)
    (l1 : list A) (l2 : list B) : result (list C) :=
  match l1, l2 with
  | [a], _ => Ok (map (f a) l2)
  | _, [b] => Ok (map (fun a => f a b) l1)
  | _, _ => if (length l1 =? length l2)%nat then Ok (map2 f l1 l2)
            else Raise ValueError
  end.

Definition broadcast2 {A B C : Type} (f : A -> B -> C)
    (x : nd A) (y : nd B) : result (nd C) :=
  match x, y with
  | Scalar a, Scalar b => Ok (Scalar (f a b))
  | Scalar a, Array l => Ok (Array (map (f a) l))
  | Array l, Scalar b => Ok (Array (map (fun a => f a b) l))
  | Array l1, Array l2 => l <- zip_with_broadcast f l1 l2 ;; Ok (Array l)
  end.

(** [bool(x)]: an array of more than one element has no truth value
    (ValueError); the empty array is false (numpy 1.x). *)
Definition truth (x : nd bool) : result bool :=
  match x with
  | Scalar b => Ok b
  | Array [] => Ok false
  | Array [b] => Ok b
  | Array _ => Raise ValueError
  end.

(** [a[i]] for a non-negative subscript, and [a[idx]] for an array of
    subscripts. *)
Definition getitem1 {A : Type} (a : list A) (i : nat) : result A :=
  match nth_error a i with
  | Some x => Ok x
  | None => Raise IndexError
  end.

Definition getitem {A : Type} (a : list A) (i : nd nat) : result (nd A) :=
  match i with
  | Scalar i => x <- getitem1 a i ;; Ok (Scalar x)
  | Array l => xs <- mapM (getitem1 a) l ;; Ok (Array xs)
  end.

(** [np.squeeze]: axes of length one are removed. *)
Definition squeeze {A : Type} (x : nd A) : nd A :=
  match x with
  | Array [a] => Scalar a
  | _ => x
  end.

(** [np.array(l)] for a Python list [l] of scalars. *)
Definition np_array {A : Type} (l : list (nd A)) : nd A :=
  Array (concat (map (fun x => match x with Scalar a => [a] | Array l' => l' end) l)).

(** [np.zeros(n)]: a negative dimension is a ValueError. *)
Definition zeros (n : Z) : result (list Q) :=
  if (n <? 0)%Z then Raise ValueError else Ok (repeat 0%Q (Z.to_nat n)).

(** [np.linspace(start, stop, num)] with the default [endpoint=True]:
    [num] evenly spaced samples [start + i * step],
    [step = (stop - start) / (num - 1)], the last one set to [stop];
    a single sample is [start]; a negative [num] is a ValueError. *)
Definition linspace (start stop : Q) (num : Z) : result (list Q) :=
  if (num <? 0)%Z then Raise ValueError
  else
    match Z.to_nat num with
    | O => Ok []
    | S O => Ok [start]
    | S (S k) =>
        let step := (stop - start) / inject_Z (num - 1) in
        Ok (map (fun i => start + inject_Z (Z.of_nat i) * step) (seq 0 (S k)) ++ [stop])
    end.

(** [np.searchsorted(a, v, side="left")] for one key: numpy's bisection of
    the window [[min_idx, max_idx)], which starts as the whole array.  Each
    round shrinks a non-empty window, so [length a] rounds are enough. *)
Fixpoint binsearch_left (rounds : nat) (arr : list Q) (key_val : Q)
    (min_idx max_idx : nat) : nat :=
  match rounds with
  | O => min_idx
  | S rounds' =>
      if (min_idx <? max_idx)%nat then
        let mid_idx := (min_idx + (max_idx - min_idx) / 2)%nat in
        if Qltb (nth mid_idx arr 0) key_val
        then binsearch_left rounds' arr key_val (S mid_idx) max_idx
        else binsearch_left rounds' arr key_val min_idx mid_idx
      else min_idx
  end.

Definition searchsorted_left (a : list Q) (v : Q) : nat :=
  binsearch_left (length a) a v 0 (length a).

Definition searchsorted (a : list Q) (v : nd Q) : nd nat :=
  nd_map (searchsorted_left a) v.

End Numpy.

Import Numpy.

(** ** biasOneD.py *)

Module BiasOneD.

(** What the code uses of a potential object: its energy function [V] and
    the derivative [dVdpos], both as functions of the position.  The classes
    that build them ([_potential1DCls], [gaussPotential]) are imported by
    biasOneD.py and are inputs here. *)
Record potential1D : Type := {
  V : Q -> Q;
  dVdpos : Q -> Q
}.

(** [a / b] and [a % b] on Python numbers. *)
Definition py_div (a b : Q) : result Q :=
  if Qeq_bool b 0 then Raise ZeroDivisionError else Ok (a / b).

Definition py_mod (a b : Z) : result Z :=
  if (b =? 0)%Z then Raise ZeroDivisionError else Ok (a mod b)%Z.

(** *** class metadynamicsPotential *)

Record metadynamicsPotential : Type := {
  origPotential : potential1D;
  n_trigger : Z;
  amplitude : Q;
  sigma : Q;
  bias_grid_energy : list Q;
  bias_grid_force : list Q;
  bin_centers : list Q;
  current_n : Z;
  finished_steps : Z
}.

(** [__init__]: the assignments of lines 183-197.  The symbolic set-up that
    follows them (constants, [V], [dVdpos], [super().__init__()]) gives the
    object the energy and derivative functions of [origPotential]: see
    [_calculate_energies] and [_calculate_dVdpos]. *)
Definition __init__ (origPotential : potential1D) (amplitude sigma : Q)
    (n_trigger : Z) (bias_grid_min bias_grid_max : Q) (numbins : Z)
    : result metadynamicsPotential :=
  bias_grid_energy <- zeros numbins ;;
  bias_grid_force <- zeros numbins ;;
  bin_half <- py_div (bias_grid_max - bias_grid_min) (2 * inject_Z numbins) ;;
  bin_centers <- linspace (bias_grid_min + bin_half) (bias_grid_max - bin_half) numbins ;;
  Ok {| origPotential := origPotential;
        n_trigger := n_trigger;
        amplitude := amplitude;
        sigma := sigma;
        bias_grid_energy := bias_grid_energy;
        bias_grid_force := bias_grid_force;
        bin_centers := bin_centers;
        current_n := 1;
        finished_steps := 0 |}.

(** The constructor with the defaults of its signature:
    [amplitude=0.1, sigma=0.1, n_trigger=100, bias_grid_min=0,
    bias_grid_max=10, numbins=100]. *)
Definition default_init (origPotential : potential1D) : result metadynamicsPotential :=
  __init__ origPotential (1 # 10) (1 # 10) 100 0 10 100.

(** The lambdified energy and derivative of the unbiased potential, set by
    the base class from [self.V] and [self.dVdpos]; they act elementwise. *)
Definition _calculate_energies (self : metadynamicsPotential) (positions : nd Q) : nd Q :=
  nd_map (V (origPotential self)) positions.

Definition _calculate_dVdpos (self : metadynamicsPotential) (positions : nd Q) : nd Q :=
  nd_map (dVdpos (origPotential self)) positions.

(** [_find_nearest]: [value] is a scalar or, when [force] is called with a
    sequence, an array.  [idx - 1] is computed only after [idx > 0] was
    found true, so subtraction on [nat] is the subtraction of the code. *)
Definition _find_nearest (array : list Q) (value : nd Q) : result (nd nat) :=
  let idx := searchsorted array value in
  c <- (c1 <- truth (nd_map (fun i => 0 <? i)%nat idx) ;;
        if c1 then
          c2 <- truth (nd_map (fun i => i =? length array)%nat idx) ;;
          if c2 then Ok true
          else
            lo <- getitem array (nd_map pred idx) ;;
            hi <- getitem array idx ;;
            dlo <- broadcast2 (fun v a => Qabs (v - a)) value lo ;;
            dhi <- broadcast2 (fun v a => Qabs (v - a)) value hi ;;
            lt <- broadcast2 Qltb dlo dhi ;;
            truth lt
        else Ok false) ;;
  if c then Ok (nd_map pred idx) else Ok idx.

(** [ene]: the branch for a Python float or int, a [Scalar], and the loop
    over the entries of a sequence. *)
Definition ene (self : metadynamicsPotential) (positions : nd Q) : result (nd Q) :=
  match positions with
  | Scalar _ =>
      current_bin <- _find_nearest (bin_centers self) positions ;;
      b <- getitem (bias_grid_energy self) current_bin ;;
      e <- broadcast2 Qplus (_calculate_energies self (squeeze positions)) b ;;
      Ok (squeeze e)
  | Array entries =>
      bias_list <- mapM (fun entry =>
                           current_bin <- _find_nearest (bin_centers self) (Scalar entry) ;;
                           getitem (bias_grid_energy self) current_bin) entries ;;
      e <- broadcast2 Qplus (_calculate_energies self (squeeze positions)) (np_array bias_list) ;;
      Ok (squeeze e)
  end.

Definition force (self : metadynamicsPotential) (positions : nd Q) : result (nd Q) :=
  current_bin <- _find_nearest (bin_centers self) positions ;;
  b <- getitem (bias_grid_force self) current_bin ;;
  e <- broadcast2 Qplus (_calculate_dVdpos self (squeeze positions)) b ;;
  Ok (squeeze e).

Section Deposition.

(** [gaussPotential(A, mu, sigma)] of [ensembler.potentials.OneD]: the
    kernel class, an input of this module. *)
Variable gaussPotential : Q -> Q -> Q -> potential1D.

Definition _update_potential (self : metadynamicsPotential) (curr_position : Q)
    : result metadynamicsPotential :=
  let new_bias := gaussPotential (amplitude self) curr_position (sigma self) in
  let new_bias_bin_energy := map (V new_bias) (bin_centers self) in
  let new_bias_bin_force := map (dVdpos new_bias) (bin_centers self) in
  energy <- zip_with_broadcast Qplus (bias_grid_energy self) new_bias_bin_energy ;;
  force <- zip_with_broadcast Qplus (bias_grid_force self) new_bias_bin_force ;;
  Ok {| origPotential := origPotential self;
        n_trigger := n_trigger self;
        amplitude := amplitude self;
        sigma := sigma self;
        bias_grid_energy := energy;
        bias_grid_force := force;
        bin_centers := bin_centers self;
        current_n := current_n self;
        finished_steps := finished_steps self |}.

Definition set_counters (self : metadynamicsPotential) (n steps : Z) : metadynamicsPotential :=
  {| origPotential := origPotential self;
     n_trigger := n_trigger self;
     amplitude := amplitude self;
     sigma := sigma self;
     bias_grid_energy := bias_grid_energy self;
     bias_grid_force := bias_grid_force self;
     bin_centers := bin_centers self;
     current_n := n;
     finished_steps := steps |}.

Definition check_for_metastep (self : metadynamicsPotential) (curr_position : Q)
    : result metadynamicsPotential :=
  r <- py_mod (current_n self) (n_trigger self) ;;
  if (r =? 0)%Z then
    self' <- _update_potential self curr_position ;;
    Ok (set_counters self' 1 (finished_steps self' + 1))
  else
    Ok (set_counters self (current_n self + 1) (finished_steps self)).

(** The sampler calls [check_for_metastep] once per step, in step order. *)
Fixpoint run (self : metadynamicsPotential) (positions : list Q)
    : result metadynamicsPotential :=
  match positions with
  | [] => Ok self
  | x :: rest => self' <- check_for_metastep self x ;; run self' rest
  end.

(** The states of an object over its lifetime: the constructed one, and
    every state a successful call of [check_for_metastep] leaves. *)
Inductive reachable : metadynamicsPotential -> Prop :=
| reach_init : forall orig A sg n lo hi nb self,
    __init__ orig A sg n lo hi nb = Ok self -> reachable self
| reach_step : forall self x self',
    reachable self -> check_for_metastep self x = Ok self' -> reachable self'.

End Deposition.

(** *** class _bias_baseclass *)

Module _bias_baseclass.

(** The objects [__init__] handles are opaque here; what matters is which
    names are bound where. *)
Inductive pyobj : Type :=
| PyNumber (q : Q)
| PyModule (name : string)
| PyClass (name : string)
| PySymbol (name : string)
| PyObject (name : string).

Definition namespace : Type := list (string * pyobj).

Fixpoint lookup (ns : namespace) (x : string) : option pyobj :=
  match ns with
  | [] => None
  | (y, v) :: ns' => if String.eqb x y then Some v else lookup ns' x
  end.

(** The global names of the module biasOneD.py: its imports and its
    classes (and the names every module has, which start with two
    underscores). *)
Definition module_globals : namespace :=
  [ ("np", PyModule "numpy"); ("sp", PyModule "sympy");
    ("_potential1DCls", PyClass "_potential1DCls");
    ("gaussPotential", PyClass "gaussPotential");
    ("_bias_baseclass", PyClass "_bias_baseclass");
    ("addedPotentials", PyClass "addedPotentials");
    ("metadynamicsPotential", PyClass "metadynamicsPotential");
    ("timedependendBias", PyClass "timedependendBias");
    ("metadynamicsPotentialSympy", PyClass "metadynamicsPotentialSympy") ]%string.

(** The names bound in the body of the class: they are attributes of the
    class and of its instances, not variables of its methods. *)
Definition class_body : namespace :=
  [ ("name", PyObject "bias_baseclass"); ("nDim", PyNumber 1);
    ("position", PySymbol "r"); ("y_shift", PySymbol "Voffset") ]%string.

(** Python's built-in functions and constants; the other built-in names
    are the exception and warning classes, whose names start with a
    capital letter. *)
Definition builtin_names : list string :=
  [ "abs"; "aiter"; "all"; "anext"; "any"; "ascii"; "bin"; "bool";
    "breakpoint"; "bytearray"; "bytes"; "callable"; "chr"; "classmethod";
    "compile"; "complex"; "delattr"; "dict"; "dir"; "divmod"; "enumerate";
    "eval"; "exec"; "filter"; "float"; "format"; "frozenset"; "getattr";
    "globals"; "hasattr"; "hash"; "help"; "hex"; "id"; "input"; "int";
    "isinstance"; "issubclass"; "iter"; "len"; "list"; "locals"; "map";
    "max"; "memoryview"; "min"; "next"; "object"; "oct"; "open"; "ord";
    "pow"; "print"; "property"; "range"; "repr"; "reversed"; "round"; "set";
    "setattr"; "slice"; "sorted"; "staticmethod"; "str"; "sum"; "super";
    "tuple"; "type"; "vars"; "zip"; "__import__"; "__debug__"; "copyright";
    "credits"; "exit"; "license"; "quit" ]%string.

Definition starts_with_capital (x : string) : bool :=
  match x with
  | String c _ => let n := Ascii.nat_of_ascii c in ((65 <=? n) && (n <=? 90))%nat
  | EmptyString => false
  end.

Definition is_builtin (x : string) : bool :=
  existsb (String.eqb x) builtin_names || starts_with_capital x.

(** Reading a bare name inside a method: the local variables of the call,
    then the globals of the module, then the built-ins.  The body of the
    enclosing class is not searched. *)
Definition load_name (locals : namespace) (x : string) : result pyobj :=
  match lookup locals x with
  | Some v => Ok v
  | None =>
      match lookup module_globals x with
      | Some v => Ok v
      | None => if is_builtin x then Ok (PyObject x) else Raise NameError
      end
  end.

(** Reading an attribute of [self]: found in the body of the class. *)
Definition load_attr (x : string) : result pyobj :=
  match lookup class_body x with
  | Some v => Ok v
  | None => Raise AttributeError
  end.

Record object : Type := {
  integrator : pyobj;
  system : pyobj;
  V_orig : pyobj * pyobj;
  constants : pyobj * pyobj
}.

(** [__init__(self, integrator, system=0)], lines 35-41, name by name in
    the order of evaluation.  Line 41 is the first to read [y_shift]; the
    lambdas of lines 47-48 read it too. *)
Definition __init__ (self integrator system : pyobj) : result object :=
  let locals := [ ("self", self); ("integrator", integrator);
                  ("system", system) ]%string in
  (* self.integrator = integrator *)
  integrator' <- load_name locals "integrator" ;;
  _ <- load_name locals "self" ;;
  (* self.system = system *)
  system' <- load_name locals "system" ;;
  _ <- load_name locals "self" ;;
  (* self.V_orig = sp.Lambda(self.position, self.y_shift) *)
  _ <- load_name locals "sp" ;;
  _ <- load_name locals "self" ;;
  position <- load_attr "position" ;;
  _ <- load_name locals "self" ;;
  symbol <- load_attr "y_shift" ;;
  _ <- load_name locals "self" ;;
  (* self.constants = {self.y_shift: y_shift} *)
  _ <- load_name locals "self" ;;
  key <- load_attr "y_shift" ;;
  value <- load_name locals "y_shift" ;;
  _ <- load_name locals "self" ;;
  Ok {| integrator := integrator';
        system := system';
        V_orig := (position, symbol);
        constants := (key, value) |}.

End _bias_baseclass.

End BiasOneD.

(** ** perturbed_system.py *)

Module PerturbedSystem.

Section System.

(** [Number]: what positions, velocities, forces, temperatures and lambda
    values are. *)
Variable Number : Type.

(** [data.lambdaState] *)
Record lambdaState : Type := {
  position : Number;
  temperature : Number;
  total_system_energy : Number;
  total_potential_energy : Number;
  total_kinetic_energy : Number;
  dhdpos : Number;
  velocity : Number;
  lam : Number;
  dhdlam : Number
}.

Record perturbedSystem : Type := {
  _currentPosition : Number;
  _currentVelocities : Number;
  _currentForce : Number;
  _currentTemperature : Number;
  _currentLambda : Number;
  _currentdHdLambda : Number;
  _currentTotE : Number;
  _currentTotPot : Number;
  _currentTotKin : Number;
  _currentState : option lambdaState
}.

(** [system._update_energies] of basic_system.py, inherited by the class,
    and [self.potential.dvdlam]: inputs of this module. *)
Variable _update_energies : perturbedSystem -> perturbedSystem.
Variable dvdlam : Number -> Number.

Definition update_current_state (self : perturbedSystem) : perturbedSystem :=
  {| _currentPosition := _currentPosition self;
     _currentVelocities := _currentVelocities self;
     _currentForce := _currentForce self;
     _currentTemperature := _currentTemperature self;
     _currentLambda := _currentLambda self;
     _currentdHdLambda := _currentdHdLambda self;
     _currentTotE := _currentTotE self;
     _currentTotPot := _currentTotPot self;
     _currentTotKin := _currentTotKin self;
     _currentState :=
       Some {| position := _currentPosition self;
               temperature := _currentTemperature self;
               total_system_energy := _currentTotE self;
               total_potential_energy := _currentTotPot self;
               total_kinetic_energy := _currentTotKin self;
               dhdpos := _currentForce self;
               velocity := _currentVelocities self;
               lam := _currentLambda self;
               dhdlam := _currentdHdLambda self |} |}.

(** [_update_dHdLambda]: the new state and the returned value. *)
Definition _update_dHdLambda (self : perturbedSystem) : perturbedSystem * Number :=
  let d := dvdlam (_currentPosition self) in
  let self1 :=
    {| _currentPosition := _currentPosition self;
       _currentVelocities := _currentVelocities self;
       _currentForce := _currentForce self;
       _currentTemperature := _currentTemperature self;
       _currentLambda := _currentLambda self;
       _currentdHdLambda := d;
       _currentTotE := _currentTotE self;
       _currentTotPot := _currentTotPot self;
       _currentTotKin := _currentTotKin self;
       _currentState := _currentState self |} in
  (update_current_state self1, d).

Definition set_current_state (self : perturbedSystem)
    (current_position current_velocities current_force current_temperature
     current_lambda current_dHdLambda : Number) : perturbedSystem :=
  let self1 :=
    {| _currentPosition := current_position;
       _currentVelocities := current_force;
       _currentForce := current_force;
       _currentTemperature := current_temperature;
       _currentLambda := current_lambda;
       _currentdHdLambda := current_dHdLambda;
       _currentTotE := _currentTotE self;
       _currentTotPot := _currentTotPot self;
       _currentTotKin := _currentTotKin self;
       _currentState := _currentState self |} in
  let self2 := _update_energies self1 in
  let self3 := fst (_update_dHdLambda self2) in
  update_current_state self3.

End System.

End PerturbedSystem.

Import BiasOneD.

(** ** Specification vocabulary *)

(** The subscript [_find_nearest] computes for a scalar query. *)
Definition nearest_index (array : list Q) (value : Q) : nat :=
  let idx := searchsorted_left array value in
  if ((0 <? idx)%nat &&
      ((idx =? length array)%nat ||
       Qltb (Qabs (value - nth (pred idx) array 0)) (Qabs (value - nth idx array 0))))%bool
  then pred idx else idx.

(** The documented result of [np.searchsorted(a, v, side="left")] on a
    sorted array: the number of leading entries strictly below [v], that
    is the subscript [i] with [a[i-1] < v <= a[i]]. *)
Fixpoint leading_below (a : list Q) (v : Q) : nat :=
  match a with
  | [] => O
  | x :: a' => if Qltb x v then S (leading_below a' v) else O
  end.

Definition sorted (a : list Q) : Prop :=
  forall i j, (i <= j)%nat -> (j < length a)%nat -> nth i a 0 <= nth j a 0.

(** A strictly increasing array, as a check on its entries. *)
Fixpoint strictly_increasing (a : list Q) : bool :=
  match a with
  | x :: (y :: _) as a' => Qltb x y && strictly_increasing a'
  | _ => true
  end.

(** Entry [i] of [a] is a nearest entry to [v]: no entry is strictly
    closer. *)
Definition is_nearest (a : list Q) (v : Q) (i : nat) : Prop :=
  (i < length a)%nat /\
  forall j, (j < length a)%nat -> Qabs (v - nth i a 0) <= Qabs (v - nth j a 0).

(** [v] is the midpoint of the adjacent entries [k] and [k + 1] of [a]. *)
Definition midpoint_of (a : list Q) (k : nat) (v : Q) : Prop :=
  (S k < length a)%nat /\ v == (nth k a 0 + nth (S k) a 0) / 2.

(** The nearest-bin contract with ties resolved to the lower index. *)
Definition nearest_with_lower_tie (a : list Q) (v : Q) : Prop :=
  exists i, _find_nearest a (Scalar v) = Ok (Scalar i) /\
            is_nearest a v i /\
            forall k, midpoint_of a k v -> i = k.

(** The grids and the bin centers have one length, and there is a bin. *)
Definition well_formed (self : metadynamicsPotential) : Prop :=
  bin_centers self <> [] /\
  length (bias_grid_energy self) = length (bin_centers self) /\
  length (bias_grid_force self) = length (bin_centers self).

(** The two outcomes of a call of [check_for_metastep]: a deposition with
    the counters reset and advanced, or a mere increment of [current_n]. *)
Definition fires (gaussPotential : Q -> Q -> Q -> potential1D)
    (self : metadynamicsPotential) (x : Q) (self' : metadynamicsPotential) : Prop :=
  exists d, _update_potential gaussPotential self x = Ok d /\
            self' = set_counters d 1 (finished_steps self + 1).

Definition idles (self self' : metadynamicsPotential) : Prop :=
  self' = set_counters self (current_n self + 1) (finished_steps self).

(** Depositions in sequence. *)
Fixpoint deposit_all (gaussPotential : Q -> Q -> Q -> potential1D)
    (self : metadynamicsPotential) (centers : list Q) : result metadynamicsPotential :=
  match centers with
  | [] => Ok self
  | mu :: rest =>
      self' <- _update_potential gaussPotential self mu ;;
      deposit_all gaussPotential self' rest
  end.

Definition Qsum (l : list Q) : Q := fold_right Qplus 0 l.

(** The shape of an output mirrors the shape of the input. *)
Definition same_shape (x y : nd Q) : Prop :=
  match x, y with
  | Scalar _, Scalar _ => True
  | Array l, Array l' => length l = length l'
  | _, _ => False
  end.

Definition shape_contract (f : nd Q -> result (nd Q)) (positions : nd Q) : Prop :=
  exists out, f positions = Ok out /\ same_shape positions out.

(** Construction rejects a non-positive trigger interval or kernel width,
    a non-positive bin count and inverted or degenerate bounds. *)
Definition eager_validation : Prop :=
  forall orig A sg n lo hi nb,
    ((n <= 0)%Z \/ sg <= 0 \/ (nb <= 0)%Z \/ hi <= lo) ->
    is_ok (__init__ orig A sg n lo hi nb) = false.

(** The parameters and the bin centers of an object, which no call
    changes. *)
Definition same_configuration (self self' : metadynamicsPotential) : Prop :=
  origPotential self' = origPotential self /\
  n_trigger self' = n_trigger self /\
  amplitude self' = amplitude self /\
  sigma self' = sigma self /\
  bin_centers self' = bin_centers self.

(** The kernel deposited at [mu], and its derivative, evaluated at the
    center of bin [i]. *)
Definition kernel_at (gaussPotential : Q -> Q -> Q -> potential1D)
    (self : metadynamicsPotential) (i : nat) (mu : Q) : Q :=
  V (gaussPotential (amplitude self) mu (sigma self)) (nth i (bin_centers self) 0).

Definition kernel_force_at (gaussPotential : Q -> Q -> Q -> potential1D)
    (self : metadynamicsPotential) (i : nat) (mu : Q) : Q :=
  dVdpos (gaussPotential (amplitude self) mu (sigma self)) (nth i (bin_centers self) 0).

(** *** Objects used in evaluations *)

(** A harmonic well centred at 5 with curvature 1. *)
Definition harmonic : potential1D :=
  {| V := fun r => (1 # 2) * (r - 5) * (r - 5);
     dVdpos := fun r => r - 5 |}.

(** A rational bump of height [A] centred at [mu] with width [sigma],
    standing for the kernel class where an evaluation needs one. *)
Definition bump (A mu sigma : Q) : potential1D :=
  {| V := fun r => A / (1 + ((r - mu) / sigma) * ((r - mu) / sigma));
     dVdpos := fun r =>
       - (2 * A * (r - mu) / (sigma * sigma))
       / ((1 + ((r - mu) / sigma) * ((r - mu) / sigma))
          * (1 + ((r - mu) / sigma) * ((r - mu) / sigma))) |}.

Definition value_or {A : Type} (default : A) (r : result A) : A :=
  match r with Ok a => a | Raise _ => default end.

Definition empty_object : metadynamicsPotential :=
  {| origPotential := harmonic; n_trigger := 1; amplitude := 0; sigma := 0;
     bias_grid_energy := []; bias_grid_force := []; bin_centers := [];
     current_n := 1; finished_steps := 0 |}.

(** A fresh object over [0, 10] with four bins, firing every third step. *)
Definition fresh4 : metadynamicsPotential :=
  value_or empty_object (__init__ harmonic (1 # 10) (1 # 10) 3 0 10 4).

(** The object constructed with the defaults of the signature. *)
Definition fresh_default : metadynamicsPotential :=
  value_or empty_object (default_init harmonic).

(** The states of [fresh4] along the positions 1, 2, ..., driven with the
    rational bump as kernel. *)
Definition after_calls (positions : list Q) : metadynamicsPotential :=
  value_or empty_object (run bump fresh4 positions).

(** A system whose energies are recomputed from positions and velocities,
    for evaluations of [set_current_state]. *)
Definition example_update_energies (s : PerturbedSystem.perturbedSystem Q)
    : PerturbedSystem.perturbedSystem Q :=
  {| PerturbedSystem._currentPosition := PerturbedSystem._currentPosition Q s;
     PerturbedSystem._currentVelocities := PerturbedSystem._currentVelocities Q s;
     PerturbedSystem._currentForce := PerturbedSystem._currentForce Q s;
     PerturbedSystem._currentTemperature := PerturbedSystem._currentTemperature Q s;
     PerturbedSystem._currentLambda := PerturbedSystem._currentLambda Q s;
     PerturbedSystem._currentdHdLambda := PerturbedSystem._currentdHdLambda Q s;
     PerturbedSystem._currentTotE :=
       V harmonic (PerturbedSystem._currentPosition Q s)
       + (1 # 2) * PerturbedSystem._currentVelocities Q s * PerturbedSystem._currentVelocities Q s;
     PerturbedSystem._currentTotPot := V harmonic (PerturbedSystem._currentPosition Q s);
     PerturbedSystem._currentTotKin :=
       (1 # 2) * PerturbedSystem._currentVelocities Q s * PerturbedSystem._currentVelocities Q s;
     PerturbedSystem._currentState := PerturbedSystem._currentState Q s |}.

Definition example_system : PerturbedSystem.perturbedSystem Q :=
  {| PerturbedSystem._currentPosition := 0;
     PerturbedSystem._currentVelocities := 0;
     PerturbedSystem._currentForce := 0;
     PerturbedSystem._currentTemperature := 298;
     PerturbedSystem._currentLambda := 0;
     PerturbedSystem._currentdHdLambda := 0;
     PerturbedSystem._currentTotE := 0;
     PerturbedSystem._currentTotPot := 0;
     PerturbedSystem._currentTotKin := 0;
     PerturbedSystem._currentState := None |}.

(** ** The rest of biasOneD.py and perturbed_system.py *)

(** The positions whose ordinal number, counted from [ordinal], is a
    multiple of [n]. *)
Fixpoint every_nth_from (ordinal n : Z) (xs : list Q) : list Q :=
  match xs with
  | [] => []
  | x :: rest =>
      if (ordinal mod n =? 0)%Z
      then x :: every_nth_from (ordinal + 1) n rest
      else every_nth_from (ordinal + 1) n rest
  end.

Definition every_nth (n : Z) (xs : list Q) : list Q := every_nth_from 1 n xs.

(** The width of a bin of a grid of [nb] bins over [[lo, hi]]. *)
Definition bin_width (lo hi : Q) (nb : Z) : Q := (hi - lo) / inject_Z nb.

(** *** class timedependendBias

    A sympy expression of the position is represented by the function it
    denotes once its constants are substituted: the sum of two expressions
    is the pointwise sum, [subs] with the constants leaves such an
    expression as it is, and [sp.diff] is an input. *)

Module timedependendBias.

Section WithSympy.

Variable diff : (Q -> Q) -> Q -> Q.

Record object : Type := {
  origPotential : BiasOneD.potential1D;
  n_trigger : Z;
  addPotential : BiasOneD.potential1D;
  current_n : Z;
  V_orig : Q -> Q;
  V : Q -> Q;
  dVdpos : Q -> Q
}.

Definition __init__ (origPotential addPotential : BiasOneD.potential1D)
    (n_trigger : Z) : object :=
  {| origPotential := origPotential;
     n_trigger := n_trigger;
     addPotential := addPotential;
     current_n := 1;
     V_orig := BiasOneD.V origPotential;
     V := BiasOneD.V origPotential;
     dVdpos := diff (BiasOneD.V origPotential) |}.

Definition _update_potential (self : object) : object :=
  let V_orig' := fun r => V self r + BiasOneD.V (addPotential self) r in
  {| origPotential := origPotential self;
     n_trigger := n_trigger self;
     addPotential := addPotential self;
     current_n := current_n self;
     V_orig := V_orig';
     V := V_orig';
     dVdpos := diff V_orig' |}.

Definition set_current_n (self : object) (n : Z) : object :=
  {| origPotential := origPotential self;
     n_trigger := n_trigger self;
     addPotential := addPotential self;
     current_n := n;
     V_orig := V_orig self;
     V := V self;
     dVdpos := dVdpos self |}.

Definition check_for_metastep (self : object) (curr_position : Q) : result object :=
  r <- BiasOneD.py_mod (current_n self) (n_trigger self) ;;
  if (r =? 0)%Z then Ok (set_current_n (_update_potential self) 1)
  else Ok (set_current_n self (current_n self + 1)).

Fixpoint run (self : object) (positions : list Q) : result object :=
  match positions with
  | [] => Ok self
  | x :: rest => self' <- check_for_metastep self x ;; run self' rest
  end.

End WithSympy.

End timedependendBias.

(** *** class metadynamicsPotentialSympy *)

Module metadynamicsPotentialSympy.

Section WithSympy.

Variable diff : (Q -> Q) -> Q -> Q.
Variable gaussPotential : Q -> Q -> Q -> BiasOneD.potential1D.

Record object : Type := {
  origPotential : BiasOneD.potential1D;
  n_trigger : Z;
  amplitude : Q;
  sigma : Q;
  current_n : Z;
  finished_steps : Z;
  V_orig : Q -> Q;
  V : Q -> Q;
  dVdpos : Q -> Q
}.

Definition __init__ (origPotential : BiasOneD.potential1D) (amplitude sigma : Q)
    (n_trigger : Z) : object :=
  {| origPotential := origPotential;
     n_trigger := n_trigger;
     amplitude := amplitude;
     sigma := sigma;
     current_n := 1;
     finished_steps := 0;
     V_orig := BiasOneD.V origPotential;
     V := BiasOneD.V origPotential;
     dVdpos := diff (BiasOneD.V origPotential) |}.

Definition _update_potential (self : object) (curr_position : Q) : object :=
  let V_orig' := fun r =>
    V self r + BiasOneD.V (gaussPotential (amplitude self) curr_position (sigma self)) r in
  {| origPotential := origPotential self;
     n_trigger := n_trigger self;
     amplitude := amplitude self;
     sigma := sigma self;
     current_n := current_n self;
     finished_steps := finished_steps self;
     V_orig := V_orig';
     V := V_orig';
     dVdpos := diff V_orig' |}.

Definition set_counters (self : object) (n steps : Z) : object :=
  {| origPotential := origPotential self;
     n_trigger := n_trigger self;
     amplitude := amplitude self;
     sigma := sigma self;
     current_n := n;
     finished_steps := steps;
     V_orig := V_orig self;
     V := V self;
     dVdpos := dVdpos self |}.

Definition check_for_metastep (self : object) (curr_position : Q) : result object :=
  r <- BiasOneD.py_mod (current_n self) (n_trigger self) ;;
  if (r =? 0)%Z then
    let self' := _update_potential self curr_position in
    Ok (set_counters self' 1 (finished_steps self' + 1))
  else
    Ok (set_counters self (current_n self + 1) (finished_steps self)).

Fixpoint run (self : object) (positions : list Q) : result object :=
  match positions with
  | [] => Ok self
  | x :: rest => self' <- check_for_metastep self x ;; run self' rest
  end.

End WithSympy.

End metadynamicsPotentialSympy.

(** *** The methods of _bias_baseclass *)

Module BiasBaseclassMethods.

Import BiasOneD._bias_baseclass.

(** The built-in exception and warning classes and the built-in constants
    with a capital letter. *)
Definition exception_names : list string :=
  [ "ArithmeticError"; "AssertionError"; "AttributeError"; "BaseException";
    "BaseExceptionGroup"; "BlockingIOError"; "BrokenPipeError"; "BufferError";
    "BytesWarning"; "ChildProcessError"; "ConnectionAbortedError";
    "ConnectionError"; "ConnectionRefusedError"; "ConnectionResetError";
    "DeprecationWarning"; "EOFError"; "Ellipsis"; "EncodingWarning";
    "EnvironmentError"; "Exception"; "ExceptionGroup"; "False";
    "FileExistsError"; "FileNotFoundError"; "FloatingPointError";
    "FutureWarning"; "GeneratorExit"; "IOError"; "ImportError";
    "ImportWarning"; "IndentationError"; "IndexError"; "InterruptedError";
    "IsADirectoryError"; "KeyError"; "KeyboardInterrupt"; "LookupError";
    "MemoryError"; "ModuleNotFoundError"; "NameError"; "None";
    "NotADirectoryError"; "NotImplemented"; "NotImplementedError"; "OSError";
    "OverflowError"; "PendingDeprecationWarning"; "PermissionError";
    "ProcessLookupError"; "PythonFinalizationError"; "RecursionError";
    "ReferenceError"; "ResourceWarning"; "RuntimeError"; "RuntimeWarning";
    "StopAsyncIteration"; "StopIteration"; "SyntaxError"; "SyntaxWarning";
    "SystemError"; "SystemExit"; "TabError"; "TimeoutError"; "True";
    "TypeError"; "UnboundLocalError"; "UnicodeDecodeError";
    "UnicodeEncodeError"; "UnicodeError"; "UnicodeTranslateError";
    "UnicodeWarning"; "UserWarning"; "ValueError"; "Warning"; "WindowsError";
    "ZeroDivisionError" ]%string.

Definition is_builtin_name (x : string) : bool :=
  existsb (String.eqb x) (builtin_names ++ exception_names).

(** Reading a bare name inside a method, with the built-in names listed
    one by one. *)
Definition load_global (locals : namespace) (x : string) : result pyobj :=
  match lookup locals x with
  | Some v => Ok v
  | None =>
      match lookup module_globals x with
      | Some v => Ok v
      | None => if is_builtin_name x then Ok (PyObject x) else Raise NameError
      end
  end.

(** Reading an attribute of [self]: the attributes of the instance, then
    the body of the class. *)
Definition getattr (instance : namespace) (x : string) : result pyobj :=
  match lookup instance x with
  | Some v => Ok v
  | None => load_attr x
  end.

(** [return_bias_action], lines 54-63, up to the test of the [if]: the
    arguments of [isinstance] are evaluated before the call.  The name
    [langevinIntegrator] is read before either branch runs; the branches
    follow the call of [isinstance], whose result is an input. *)
Definition return_bias_action (isinstance : pyobj -> pyobj -> bool)
    (action : namespace -> pyobj) (instance : namespace) (self : pyobj)
    : result pyobj :=
  let locals := [ ("self", self) ]%string in
  _ <- load_global locals "isinstance" ;;
  _ <- load_global locals "self" ;;
  integrator <- getattr instance "integrator" ;;
  cls <- load_global locals "langevinIntegrator" ;;
  if isinstance integrator cls then Ok (action instance) else Raise TypeError.

(** [return_target_action] and [return_bias_energy]: the body is the
    expression statement [Pass]. *)
Definition return_target_action (self : pyobj) : result pyobj :=
  let locals := [ ("self", self) ]%string in
  _ <- load_global locals "Pass" ;;
  Ok (PyObject "None").

Definition return_bias_energy (self : pyobj) : result pyobj :=
  let locals := [ ("self", self) ]%string in
  _ <- load_global locals "Pass" ;;
  Ok (PyObject "None").

(** [return_path_correction_term], line 89: the first name read is
    [system]; [reweight] stands for the statements that follow. *)
Definition return_path_correction_term (reweight : pyobj -> pyobj) (self : pyobj)
    : result pyobj :=
  let locals := [ ("self", self) ]%string in
  system <- load_global locals "system" ;;
  Ok (reweight system).

End BiasBaseclassMethods.

(** *** The trajectory of perturbedSystem *)

Module PerturbedSystemTrajectory.

Import PerturbedSystem.

Section System.

Variable Number : Type.

(** [system._update_energies], [system._update_temperature] of
    basic_system.py and [self.potential.dvdlam]: inputs. *)
Variable _update_energies : perturbedSystem Number -> perturbedSystem Number.
Variable _update_temperature : perturbedSystem Number -> perturbedSystem Number.
Variable dvdlam : Number -> Number.

(** The attributes of [perturbedSystem] together with [_trajectory], the
    rows of the data frame. *)
Record tracked : Type := {
  fields : perturbedSystem Number;
  _trajectory : list (lambdaState Number)
}.

Definition update_system_properties (self : perturbedSystem Number)
    : perturbedSystem Number :=
  let self1 := _update_energies self in
  let self2 := _update_temperature self1 in
  fst (_update_dHdLambda Number dvdlam self2).

(** [append_state]: [self.current_state] is [_currentState]; a state that
    was never set has no [_asdict]. *)
Definition append_state (self : tracked)
    (new_position new_velocity new_forces new_lambda : Number) : result tracked :=
  let s := fields self in
  let s1 :=
    {| _currentPosition := new_position;
       _currentVelocities := new_velocity;
       _currentForce := new_forces;
       _currentTemperature := _currentTemperature Number s;
       _currentLambda := new_lambda;
       _currentdHdLambda := _currentdHdLambda Number s;
       _currentTotE := _currentTotE Number s;
       _currentTotPot := _currentTotPot Number s;
       _currentTotKin := _currentTotKin Number s;
       _currentState := _currentState Number s |} in
  let s2 := _update_temperature s1 in
  let s3 := _update_energies s2 in
  let s4 := fst (_update_dHdLambda Number dvdlam s3) in
  let s5 := update_current_state Number s4 in
  match _currentState Number s5 with
  | Some row => Ok {| fields := s5; _trajectory := _trajectory self ++ [row] |}
  | None => Raise AttributeError
  end.

End System.

(** The current state repeats the [_current...] attributes. *)
Definition in_sync (Number : Type) (self : perturbedSystem Number) : Prop :=
  _currentState Number self =
    Some {| position := _currentPosition Number self;
            temperature := _currentTemperature Number self;
            total_system_energy := _currentTotE Number self;
            total_potential_energy := _currentTotPot Number self;
            total_kinetic_energy := _currentTotKin Number self;
            dhdpos := _currentForce Number self;
            velocity := _currentVelocities Number self;
            lam := _currentLambda Number self;
            dhdlam := _currentdHdLambda Number self |}.

End PerturbedSystemTrajectory.

(** Objects used in the evaluations of the properties above: a grid with a
    negative trigger interval, a difference quotient standing for
    [sp.diff], and a temperature update. *)
Definition fresh4_negative : metadynamicsPotential :=
  value_or empty_object (__init__ harmonic (1 # 10) (1 # 10) (- 3) 0 10 4).

Definition zero_interval_object : metadynamicsPotential :=
  value_or empty_object (__init__ harmonic (1 # 10) (1 # 10) 0 0 10 4).

Definition example_diff (f : Q -> Q) (r : Q) : Q := (f (r + 1) - f (r - 1)) / 2.

Definition example_update_temperature (s : PerturbedSystem.perturbedSystem Q)
    : PerturbedSystem.perturbedSystem Q :=
  {| PerturbedSystem._currentPosition := PerturbedSystem._currentPosition Q s;
     PerturbedSystem._currentVelocities := PerturbedSystem._currentVelocities Q s;
     PerturbedSystem._currentForce := PerturbedSystem._currentForce Q s;
     PerturbedSystem._currentTemperature := 2 * PerturbedSystem._currentTotKin Q s;
     PerturbedSystem._currentLambda := PerturbedSystem._currentLambda Q s;
     PerturbedSystem._currentdHdLambda := PerturbedSystem._currentdHdLambda Q s;
     PerturbedSystem._currentTotE := PerturbedSystem._currentTotE Q s;
     PerturbedSystem._currentTotPot := PerturbedSystem._currentTotPot Q s;
     PerturbedSystem._currentTotKin := PerturbedSystem._currentTotKin Q s;
     PerturbedSystem._currentState := PerturbedSystem._currentState Q s |}.

Definition example_tracked : PerturbedSystemTrajectory.tracked Q :=
  {| PerturbedSystemTrajectory.fields := example_system;
     PerturbedSystemTrajectory._trajectory := [] |}.

(** ** Proofs *)

(** * Basic facts *)

Lemma Qltb_lt (x y : Q) : Qltb x y = true <-> x < y.
Proof.
  unfold Qltb. rewrite negb_true_iff.
  split; intros H.
  - apply Qnot_le_lt. intros Hle. apply Qle_bool_iff in Hle. congruence.
  - destruct (Qle_bool y x) eqn:E; [|reflexivity].
    apply Qle_bool_iff in E. exfalso. apply (Qlt_not_le _ _ H E).
Qed.

Lemma Qltb_ge (x y : Q) : Qltb x y = false <-> y <= x.
Proof.
  unfold Qltb. rewrite negb_false_iff. apply Qle_bool_iff.
Qed.

Lemma Qabs_cases (x : Q) :
  (0 <= x /\ Qabs x == x) \/ (x <= 0 /\ Qabs x == - x).
Proof.
  destruct (Qlt_le_dec x 0) as [H|H].
  - right. split; [lra|]. apply Qabs_neg. lra.
  - left. split; [assumption|]. apply Qabs_pos. assumption.
Qed.

Ltac abs_case x :=
  let H := fresh "Habs" in
  let E := fresh "Eabs" in
  destruct (Qabs_cases x) as [[H E]|[H E]];
  generalize dependent (Qabs x); intros.

Ltac split_abs :=
  repeat match goal with
  | |- context [Qabs ?x] => abs_case x
  | _ : context [Qabs ?x] |- _ => abs_case x
  end.


(** * The search *)

Lemma strictly_increasing_tail (x : Q) (a : list Q) :
  strictly_increasing (x :: a) = true -> strictly_increasing a = true.
Proof.
  destruct a as [|y a]; [reflexivity|].
  cbn [strictly_increasing]. intros H. apply andb_true_iff in H. apply H.
Qed.

Lemma strictly_increasing_head (x : Q) (a : list Q) :
  strictly_increasing (x :: a) = true ->
  forall j, (j < length a)%nat -> x < nth j a 0.
Proof.
  revert x. induction a as [|y a IH]; intros x H j Hj; [inversion Hj|].
  cbn [strictly_increasing] in H. apply andb_true_iff in H. destruct H as [Hxy Hs].
  apply Qltb_lt in Hxy.
  destruct j as [|j]; [exact Hxy|].
  cbn [nth]. cbn [length] in Hj.
  apply Qlt_trans with y; [exact Hxy|].
  apply IH; [exact Hs|lia].
Qed.

Lemma strictly_increasing_nth (a : list Q) :
  strictly_increasing a = true ->
  forall i j, (i < j)%nat -> (j < length a)%nat -> nth i a 0 < nth j a 0.
Proof.
  induction a as [|x a IH]; intros H i j Hij Hj; [inversion Hj|].
  destruct j as [|j]; [lia|].
  cbn [length] in Hj.
  destruct i as [|i].
  - cbn [nth]. apply strictly_increasing_head; [exact H|lia].
  - cbn [nth]. apply IH; [eapply strictly_increasing_tail; exact H|lia|lia].
Qed.

Lemma midpoint_in_window (lo hi : nat) :
  (lo < hi)%nat -> (lo <= lo + (hi - lo) / 2 < hi)%nat.
Proof.
  intros H. pose proof (Nat.div_mod_eq (hi - lo) 2) as E.
  pose proof (Nat.mod_upper_bound (hi - lo) 2 ltac:(lia)). lia.
Qed.

Lemma binsearch_window (rounds : nat) (a : list Q) (v : Q) :
  forall lo hi, (lo <= hi)%nat ->
  (lo <= binsearch_left rounds a v lo hi <= hi)%nat.
Proof.
  induction rounds as [|r IH]; intros lo hi H; cbn [binsearch_left]; [lia|].
  destruct (lo <? hi)%nat eqn:E; [|lia].
  apply Nat.ltb_lt in E. pose proof (midpoint_in_window lo hi E) as Hm.
  cbv zeta. destruct (Qltb _ v).
  - specialize (IH (S (lo + (hi - lo) / 2)) hi ltac:(lia)). lia.
  - specialize (IH lo (lo + (hi - lo) / 2)%nat ltac:(lia)). lia.
Qed.

Lemma binsearch_sorted (rounds : nat) (a : list Q) (v : Q) :
  sorted a ->
  forall lo hi, (lo <= hi)%nat -> (hi <= length a)%nat -> (hi - lo <= rounds)%nat ->
  (forall j, (j < lo)%nat -> nth j a 0 < v) ->
  (forall j, (hi <= j)%nat -> (j < length a)%nat -> v <= nth j a 0) ->
  (forall j, (j < binsearch_left rounds a v lo hi)%nat -> nth j a 0 < v) /\
  (forall j, (binsearch_left rounds a v lo hi <= j)%nat -> (j < length a)%nat ->
             v <= nth j a 0).
Proof.
  intros Hs. induction rounds as [|r IH]; intros lo hi Hle Hhi Hr Hlo Hup;
    cbn [binsearch_left].
  - split; [exact Hlo|]. intros j Hj. apply Hup. lia.
  - destruct (lo <? hi)%nat eqn:E.
    + apply Nat.ltb_lt in E. pose proof (midpoint_in_window lo hi E) as Hm.
      cbv zeta. set (mid := (lo + (hi - lo) / 2)%nat) in *.
      destruct (Qltb (nth mid a 0) v) eqn:Ev.
      * apply Qltb_lt in Ev. apply IH; try lia; [|exact Hup].
        intros j Hj. apply Qle_lt_trans with (nth mid a 0); [|exact Ev].
        apply Hs; lia.
      * apply Qltb_ge in Ev. apply IH; try lia; [exact Hlo|].
        intros j Hj Hjl. apply Qle_trans with (nth mid a 0); [exact Ev|].
        apply Hs; lia.
    + apply Nat.ltb_ge in E. split; [exact Hlo|].
      intros j Hj. apply Hup. lia.
Qed.

Lemma binsearch_all_ge (rounds : nat) (a : list Q) (v : Q) :
  (forall j, (j < length a)%nat -> v <= nth j a 0) ->
  forall lo hi, (hi <= length a)%nat -> binsearch_left rounds a v lo hi = lo.
Proof.
  intros Hall. induction rounds as [|r IH]; intros lo hi Hhi; cbn [binsearch_left];
    [reflexivity|].
  destruct (lo <? hi)%nat eqn:E; [|reflexivity].
  apply Nat.ltb_lt in E. pose proof (midpoint_in_window lo hi E) as Hm.
  cbv zeta.
  replace (Qltb _ v) with false by (symmetry; apply Qltb_ge; apply Hall; lia).
  apply IH. lia.
Qed.

Lemma binsearch_all_lt (rounds : nat) (a : list Q) (v : Q) :
  (forall j, (j < length a)%nat -> nth j a 0 < v) ->
  forall lo hi, (lo <= hi)%nat -> (hi <= length a)%nat -> (hi - lo <= rounds)%nat ->
  binsearch_left rounds a v lo hi = hi.
Proof.
  intros Hall. induction rounds as [|r IH]; intros lo hi Hle Hhi Hr;
    cbn [binsearch_left]; [lia|].
  destruct (lo <? hi)%nat eqn:E.
  - apply Nat.ltb_lt in E. pose proof (midpoint_in_window lo hi E) as Hm.
    cbv zeta.
    replace (Qltb _ v) with true by (symmetry; apply Qltb_lt; apply Hall; lia).
    apply IH; lia.
  - apply Nat.ltb_ge in E. lia.
Qed.

Lemma leading_below_le_length (a : list Q) (v : Q) :
  (leading_below a v <= length a)%nat.
Proof.
  induction a as [|x a IH]; cbn; [lia|].
  destruct (Qltb x v); cbn; lia.
Qed.

Lemma leading_below_unique (a : list Q) (v : Q) (m : nat) :
  (m <= length a)%nat ->
  (forall j, (j < m)%nat -> nth j a 0 < v) ->
  ((m < length a)%nat -> v <= nth m a 0) ->
  leading_below a v = m.
Proof.
  revert m. induction a as [|x a IH]; intros m Hm Hlo Hhi; cbn in *.
  - lia.
  - destruct (Qltb x v) eqn:E.
    + apply Qltb_lt in E.
      destruct m as [|m].
      * exfalso. assert (v <= x) by (apply Hhi; lia). lra.
      * f_equal. apply IH; [lia| |].
        -- intros j Hj. apply (Hlo (S j)). lia.
        -- intros Hlt. apply Hhi. lia.
    + apply Qltb_ge in E.
      destruct m as [|m]; [reflexivity|].
      exfalso. assert (x < v) by (apply (Hlo 0%nat); lia). lra.
Qed.

Lemma searchsorted_le_length (a : list Q) (v : Q) :
  (searchsorted_left a v <= length a)%nat.
Proof.
  unfold searchsorted_left.
  pose proof (binsearch_window (length a) a v 0 (length a)). lia.
Qed.

Lemma searchsorted_spec (a : list Q) (v : Q) :
  sorted a ->
  (forall j, (j < searchsorted_left a v)%nat -> nth j a 0 < v) /\
  (forall j, (searchsorted_left a v <= j)%nat -> (j < length a)%nat -> v <= nth j a 0).
Proof.
  intros Hs. unfold searchsorted_left.
  apply binsearch_sorted; try lia; exact Hs.
Qed.

(** On a sorted array the bisection returns the number of leading
    elements strictly below the key. *)
Lemma searchsorted_leading_below (a : list Q) (v : Q) :
  sorted a -> searchsorted_left a v = leading_below a v.
Proof.
  intros Hs. symmetry. destruct (searchsorted_spec a v Hs) as [Hlo Hhi].
  apply leading_below_unique.
  - apply searchsorted_le_length.
  - exact Hlo.
  - intros H. apply Hhi; [lia|exact H].
Qed.

Lemma strictly_increasing_sorted (a : list Q) :
  strictly_increasing a = true -> sorted a.
Proof.
  intros H i j Hij Hj. destruct (Nat.eq_dec i j) as [->|Hne]; [lra|].
  apply Qlt_le_weak. apply strictly_increasing_nth; [exact H|lia|exact Hj].
Qed.

Lemma getitem1_nth {A : Type} (a : list A) (i : nat) (d : A) :
  (i < length a)%nat -> getitem1 a i = Ok (nth i a d).
Proof.
  intros H. unfold getitem1.
  rewrite (nth_error_nth' a d H). reflexivity.
Qed.

(** On a scalar, [_find_nearest] returns [nearest_index] and does not raise. *)
Lemma find_nearest_scalar (a : list Q) (v : Q) :
  _find_nearest a (Scalar v) = Ok (Scalar (nearest_index a v)).
Proof.
  unfold _find_nearest, nearest_index.
  cbn [searchsorted nd_map truth bind].
  pose proof (searchsorted_le_length a v) as Hle.
  set (idx := searchsorted_left a v) in *.
  destruct (0 <? idx)%nat eqn:E0; cbn [andb]; [|reflexivity].
  destruct (idx =? length a)%nat eqn:E1; cbn [orb]; [reflexivity|].
  apply Nat.ltb_lt in E0. apply Nat.eqb_neq in E1.
  cbn [getitem bind].
  rewrite getitem1_nth with (d := 0%Q) by lia. cbn [bind].
  rewrite getitem1_nth with (d := 0%Q) by lia. cbn [bind broadcast2 truth].
  destruct (Qltb _ _); reflexivity.
Qed.

Lemma nearest_index_lt (a : list Q) (v : Q) :
  a <> [] -> (nearest_index a v < length a)%nat.
Proof.
  intros Ha. unfold nearest_index.
  pose proof (searchsorted_le_length a v) as Hle.
  set (idx := searchsorted_left a v) in *.
  assert (0 < length a)%nat by (destruct a; [congruence|cbn; lia]).
  destruct (0 <? idx)%nat eqn:E0; cbn [andb].
  - apply Nat.ltb_lt in E0.
    destruct (idx =? length a)%nat eqn:E1; cbn [orb].
    + lia.
    + apply Nat.eqb_neq in E1. destruct (Qltb _ _); lia.
  - apply Nat.ltb_ge in E0. lia.
Qed.

Lemma nearest_index_is_nearest (a : list Q) (v : Q) :
  a <> [] -> strictly_increasing a = true -> is_nearest a v (nearest_index a v).
Proof.
  intros Ha Hs. split; [apply nearest_index_lt; exact Ha|].
  pose proof (strictly_increasing_sorted a Hs) as Hmono.
  pose proof (searchsorted_le_length a v) as Hle.
  destruct (searchsorted_spec a v Hmono) as [Hlo Hhi'].
  assert (Hhi : (searchsorted_left a v < length a)%nat ->
                v <= nth (searchsorted_left a v) a 0)
    by (intros H; apply Hhi'; [lia|exact H]).
  clear Hhi'. unfold nearest_index.
  set (idx := searchsorted_left a v) in *.
  intros j Hj.
  destruct (0 <? idx)%nat eqn:E0; cbn [andb].
  - apply Nat.ltb_lt in E0.
    assert (Hp : nth (pred idx) a 0 < v) by (apply Hlo; lia).
    destruct (idx =? length a)%nat eqn:E1; cbn [orb].
    + apply Nat.eqb_eq in E1.
      assert (nth j a 0 <= nth (pred idx) a 0) by (apply Hmono; lia).
      split_abs; lra.
    + apply Nat.eqb_neq in E1.
      assert (Hq : v <= nth idx a 0) by (apply Hhi; lia).
      destruct (Qltb _ _) eqn:E2.
      * apply Qltb_lt in E2.
        destruct (Nat.lt_ge_cases j idx) as [Hlt|Hge].
        -- assert (nth j a 0 <= nth (pred idx) a 0) by (apply Hmono; lia).
           split_abs; lra.
        -- assert (nth idx a 0 <= nth j a 0) by (apply Hmono; lia).
           split_abs; lra.
      * apply Qltb_ge in E2.
        destruct (Nat.lt_ge_cases j idx) as [Hlt|Hge].
        -- assert (nth j a 0 <= nth (pred idx) a 0) by (apply Hmono; lia).
           split_abs; lra.
        -- assert (nth idx a 0 <= nth j a 0) by (apply Hmono; lia).
           split_abs; lra.
  - apply Nat.ltb_ge in E0.
    assert (idx = 0)%nat by lia.
    assert (Hq : v <= nth idx a 0) by (apply Hhi; lia).
    assert (nth idx a 0 <= nth j a 0) by (apply Hmono; lia).
    split_abs; lra.
Qed.

Lemma midpoint_between (x y v : Q) :
  x < y -> v == (x + y) / 2 -> x < v /\ v < y /\ v - x == y - v.
Proof.
  intros Hxy Hv.
  assert (E : (x + y) / 2 == (1 # 2) * (x + y)) by (field).
  rewrite E in Hv. repeat split; lra.
Qed.

Lemma nearest_index_midpoint (a : list Q) (v : Q) (k : nat) :
  strictly_increasing a = true -> midpoint_of a k v -> nearest_index a v = S k.
Proof.
  intros Hs [Hk Hv].
  pose proof (strictly_increasing_nth a Hs) as Hinc.
  assert (Hlt : nth k a 0 < nth (S k) a 0) by (apply Hinc; lia).
  destruct (midpoint_between _ _ _ Hlt Hv) as (H1 & H2 & H3).
  assert (Hidx : searchsorted_left a v = S k).
  { rewrite (searchsorted_leading_below a v (strictly_increasing_sorted a Hs)).
    apply leading_below_unique; [lia| |].
    - intros j Hj. destruct (Nat.eq_dec j k) as [->|Hne]; [exact H1|].
      apply Qlt_trans with (nth k a 0); [apply Hinc; lia|exact H1].
    - intros _. apply Qlt_le_weak. exact H2. }
  unfold nearest_index. rewrite Hidx. cbn [pred].
  replace (0 <? S k)%nat with true by (symmetry; apply Nat.ltb_lt; lia).
  replace (S k =? length a)%nat with false by (symmetry; apply Nat.eqb_neq; lia).
  cbn [andb orb].
  replace (Qltb _ _) with false; [reflexivity|].
  symmetry. apply Qltb_ge. split_abs; lra.
Qed.

(** C3 (amended): on a non-empty strictly increasing array of bin centers,
    [_find_nearest] returns, for every query [v], a subscript [i] of the
    array such that no bin center is strictly closer to [v] than center
    [i]; when [v] is the midpoint of two adjacent centers it returns the
    higher of the two subscripts. *)
Theorem find_nearest_upper_tie (a : list Q) (v : Q) :
  a <> [] -> strictly_increasing a = true ->
  exists i, _find_nearest a (Scalar v) = Ok (Scalar i) /\
            is_nearest a v i /\
            forall k, midpoint_of a k v -> i = S k.
Proof.
  intros Ha Hs. exists (nearest_index a v).
  split; [apply find_nearest_scalar|].
  split; [apply nearest_index_is_nearest; assumption|].
  intros k Hk. apply nearest_index_midpoint; assumption.
Qed.

Lemma find_nearest_upper_tie_witness :
  [1; 3; 5] <> [] /\ strictly_increasing [1; 3; 5] = true /\
  exists i, _find_nearest [1; 3; 5] (Scalar 2) = Ok (Scalar i) /\
            is_nearest [1; 3; 5] 2 i /\
            forall k, midpoint_of [1; 3; 5] k 2 -> i = S k.
Proof.
  split; [discriminate|]. split; [reflexivity|].
  apply (find_nearest_upper_tie [1; 3; 5] 2); [discriminate|reflexivity].
Defined.

Lemma find_nearest_lower_tie_fails :
  strictly_increasing [1; 3] = true /\ midpoint_of [1; 3] 0 2 /\
  _find_nearest [1; 3] (Scalar 2) = Ok (Scalar 1%nat) /\
  ~ nearest_with_lower_tie [1; 3] 2.
Proof.
  assert (Hm : midpoint_of [1; 3] 0 2) by (split; [cbn; lia|reflexivity]).
  split; [reflexivity|]. split; [exact Hm|]. split; [reflexivity|].
  intros (i & Hi & _ & Htie).
  specialize (Htie 0%nat Hm). subst i. discriminate Hi.
Qed.

(** * Construction *)

Lemma zeros_nonneg (n : Z) :
  (0 <= n)%Z -> zeros n = Ok (repeat 0 (Z.to_nat n)).
Proof.
  intros H. unfold zeros.
  replace (n <? 0)%Z with false by (symmetry; apply Z.ltb_ge; lia).
  reflexivity.
Qed.

Lemma linspace_length (start stop : Q) (num : Z) (l : list Q) :
  linspace start stop num = Ok l -> length l = Z.to_nat num.
Proof.
  unfold linspace.
  destruct (num <? 0)%Z; [discriminate|].
  destruct (Z.to_nat num) as [|[|k]]; intros H; injection H as <-;
    [reflexivity|reflexivity|].
  cbn [length]. rewrite length_app, length_map, length_seq. cbn. lia.
Qed.

Lemma linspace_nonneg (start stop : Q) (num : Z) :
  (0 <= num)%Z -> exists l, linspace start stop num = Ok l.
Proof.
  intros H. unfold linspace.
  replace (num <? 0)%Z with false by (symmetry; apply Z.ltb_ge; lia).
  destruct (Z.to_nat num) as [|[|k]]; eexists; reflexivity.
Qed.

Lemma two_bins_nonzero (nb : Z) :
  (1 <= nb)%Z -> Qeq_bool (2 * inject_Z nb) 0 = false.
Proof.
  intros H. destruct (Qeq_bool (2 * inject_Z nb) 0) eqn:E; [|reflexivity].
  apply Qeq_bool_iff in E. exfalso.
  assert (0 < inject_Z nb).
  { change 0 with (inject_Z 0). rewrite <- Zlt_Qlt. lia. }
  lra.
Qed.

(** What a successful construction builds. *)
Lemma init_positive (orig : potential1D) (A sg : Q) (n : Z) (lo hi : Q) (nb : Z) :
  (1 <= nb)%Z ->
  exists centers,
    linspace (lo + (hi - lo) / (2 * inject_Z nb))
             (hi - (hi - lo) / (2 * inject_Z nb)) nb = Ok centers /\
    length centers = Z.to_nat nb /\
    __init__ orig A sg n lo hi nb =
      Ok {| origPotential := orig; n_trigger := n; amplitude := A; sigma := sg;
            bias_grid_energy := repeat 0 (Z.to_nat nb);
            bias_grid_force := repeat 0 (Z.to_nat nb);
            bin_centers := centers;
            current_n := 1; finished_steps := 0 |}.
Proof.
  intros H.
  destruct (linspace_nonneg (lo + (hi - lo) / (2 * inject_Z nb))
              (hi - (hi - lo) / (2 * inject_Z nb)) nb) as [centers Hc]; [lia|].
  exists centers. split; [exact Hc|]. split; [eapply linspace_length; exact Hc|].
  unfold __init__. rewrite zeros_nonneg by lia. cbn [bind].
  unfold py_div. rewrite two_bins_nonzero by exact H. cbn [bind].
  rewrite Hc. reflexivity.
Qed.

Lemma init_zero_bins (orig : potential1D) (A sg : Q) (n : Z) (lo hi : Q) :
  __init__ orig A sg n lo hi 0 = Raise ZeroDivisionError.
Proof. reflexivity. Qed.

Lemma init_negative_bins (orig : potential1D) (A sg : Q) (n : Z) (lo hi : Q) (nb : Z) :
  (nb < 0)%Z -> __init__ orig A sg n lo hi nb = Raise ValueError.
Proof.
  intros H. unfold __init__, zeros.
  replace (nb <? 0)%Z with true by (symmetry; apply Z.ltb_lt; lia).
  reflexivity.
Qed.

Lemma init_ok_bins (orig : potential1D) (A sg : Q) (n : Z) (lo hi : Q) (nb : Z)
    (self : metadynamicsPotential) :
  __init__ orig A sg n lo hi nb = Ok self -> (1 <= nb)%Z.
Proof.
  intros H.
  destruct (Z.lt_trichotomy nb 0) as [Hn|[->|Hp]].
  - rewrite init_negative_bins in H by exact Hn. discriminate.
  - rewrite init_zero_bins in H. discriminate.
  - lia.
Qed.

Lemma init_well_formed (orig : potential1D) (A sg : Q) (n : Z) (lo hi : Q) (nb : Z)
    (self : metadynamicsPotential) :
  __init__ orig A sg n lo hi nb = Ok self -> well_formed self.
Proof.
  intros H. pose proof (init_ok_bins _ _ _ _ _ _ _ _ H) as Hnb.
  destruct (init_positive orig A sg n lo hi nb Hnb) as (c & _ & Hlen & E).
  rewrite E in H. inversion H; subst; clear H.
  unfold well_formed; cbn. rewrite repeat_length.
  split; [|split; congruence].
  intros ->. cbn in Hlen. lia.
Qed.

(** * Deposition and the reachable states *)

Lemma map2_length {A B C : Type} (f : A -> B -> C) (l1 : list A) (l2 : list B) :
  length l1 = length l2 -> length (map2 f l1 l2) = length l1.
Proof.
  revert l2. induction l1 as [|a l1 IH]; intros [|b l2] H; cbn in *;
    try discriminate; [reflexivity|].
  f_equal. apply IH. lia.
Qed.

Lemma map2_nth {A B C : Type} (f : A -> B -> C) (l1 : list A) (l2 : list B)
    (i : nat) (da : A) (db : B) (dc : C) :
  length l1 = length l2 -> (i < length l1)%nat ->
  nth i (map2 f l1 l2) dc = f (nth i l1 da) (nth i l2 db).
Proof.
  revert l2 i. induction l1 as [|a l1 IH]; intros [|b l2] i H Hi; cbn in *;
    try discriminate; [lia|].
  destruct i as [|i]; [reflexivity|]. apply IH; lia.
Qed.

Lemma zip_with_broadcast_same_length {A B C : Type} (f : A -> B -> C)
    (l1 : list A) (l2 : list B) :
  length l1 = length l2 -> zip_with_broadcast f l1 l2 = Ok (map2 f l1 l2).
Proof.
  intros H. unfold zip_with_broadcast.
  destruct l1 as [|a [|a' l1]]; destruct l2 as [|b [|b' l2]];
    cbn in H; try discriminate; try reflexivity.
  replace (length (a :: a' :: l1) =? length (b :: b' :: l2))%nat with true
    by (symmetry; apply Nat.eqb_eq; cbn; lia).
  reflexivity.
Qed.

Section Deposits.

Variable gaussPotential : Q -> Q -> Q -> potential1D.

Lemma update_potential_ok (self : metadynamicsPotential) (x : Q) :
  well_formed self ->
  _update_potential gaussPotential self x =
    Ok {| origPotential := origPotential self;
          n_trigger := n_trigger self;
          amplitude := amplitude self;
          sigma := sigma self;
          bias_grid_energy :=
            map2 Qplus (bias_grid_energy self)
              (map (V (gaussPotential (amplitude self) x (sigma self))) (bin_centers self));
          bias_grid_force :=
            map2 Qplus (bias_grid_force self)
              (map (dVdpos (gaussPotential (amplitude self) x (sigma self))) (bin_centers self));
          bin_centers := bin_centers self;
          current_n := current_n self;
          finished_steps := finished_steps self |}.
Proof.
  intros (_ & He & Hf). unfold _update_potential.
  rewrite !zip_with_broadcast_same_length by (rewrite length_map; assumption).
  reflexivity.
Qed.

Lemma update_potential_well_formed (self self' : metadynamicsPotential) (x : Q) :
  well_formed self -> _update_potential gaussPotential self x = Ok self' ->
  well_formed self'.
Proof.
  intros Hwf H. rewrite (update_potential_ok self x Hwf) in H.
  injection H as <-. destruct Hwf as (Hne & He & Hf).
  unfold well_formed; cbn.
  rewrite !map2_length by (rewrite length_map; assumption).
  auto.
Qed.

Lemma set_counters_well_formed (self : metadynamicsPotential) (n k : Z) :
  well_formed self -> well_formed (set_counters self n k).
Proof. intros H. exact H. Qed.

Lemma check_for_metastep_well_formed (self self' : metadynamicsPotential) (x : Q) :
  well_formed self -> check_for_metastep gaussPotential self x = Ok self' ->
  well_formed self'.
Proof.
  intros Hwf H. unfold check_for_metastep in H.
  destruct (py_mod (current_n self) (n_trigger self)) as [r|e]; [|discriminate].
  cbn [bind] in H. destruct (r =? 0)%Z.
  - destruct (_update_potential gaussPotential self x) as [d|e] eqn:E; [|discriminate].
    cbn [bind] in H. injection H as <-.
    apply set_counters_well_formed. eapply update_potential_well_formed; eassumption.
  - injection H as <-. apply set_counters_well_formed. exact Hwf.
Qed.

Lemma reachable_well_formed (self : metadynamicsPotential) :
  reachable gaussPotential self -> well_formed self.
Proof.
  induction 1 as [orig A sg n lo hi nb self H|self x self' _ IH H].
  - eapply init_well_formed. exact H.
  - eapply check_for_metastep_well_formed; eassumption.
Qed.

Lemma run_reachable (self : metadynamicsPotential) (xs : list Q)
    (self' : metadynamicsPotential) :
  reachable gaussPotential self -> run gaussPotential self xs = Ok self' ->
  reachable gaussPotential self'.
Proof.
  revert self. induction xs as [|x xs IH]; intros self Hr H; cbn in H.
  - injection H as <-. exact Hr.
  - destruct (check_for_metastep gaussPotential self x) as [s|e] eqn:E; [|discriminate].
    cbn [bind] in H. eapply IH; [|exact H].
    eapply reach_step; eassumption.
Qed.

End Deposits.

(** * The read path on a scalar *)

Lemma ene_scalar (self : metadynamicsPotential) (x : Q) :
  well_formed self ->
  ene self (Scalar x) =
    Ok (Scalar (V (origPotential self) x +
                nth (nearest_index (bin_centers self) x) (bias_grid_energy self) 0)).
Proof.
  intros (Hne & He & _). unfold ene.
  rewrite find_nearest_scalar. cbn [bind getitem].
  rewrite getitem1_nth with (d := 0%Q)
    by (rewrite He; apply nearest_index_lt; exact Hne).
  reflexivity.
Qed.

Lemma force_scalar (self : metadynamicsPotential) (x : Q) :
  well_formed self ->
  force self (Scalar x) =
    Ok (Scalar (dVdpos (origPotential self) x +
                nth (nearest_index (bin_centers self) x) (bias_grid_force self) 0)).
Proof.
  intros (Hne & _ & Hf). unfold force.
  rewrite find_nearest_scalar. cbn [bind getitem].
  rewrite getitem1_nth with (d := 0%Q)
    by (rewrite Hf; apply nearest_index_lt; exact Hne).
  reflexivity.
Qed.

(** C1: in every reachable state and for every scalar position [x],
    [ene] returns the energy of the unbiased potential at [x] plus the
    entry of [bias_grid_energy] at the subscript [_find_nearest] returns
    for [x]; neither the lookup nor the subscript raises. *)
Theorem ene_sum_decomposition (gaussPotential : Q -> Q -> Q -> potential1D)
    (self : metadynamicsPotential) (x : Q) :
  reachable gaussPotential self ->
  exists i b,
    _find_nearest (bin_centers self) (Scalar x) = Ok (Scalar i) /\
    getitem1 (bias_grid_energy self) i = Ok b /\
    ene self (Scalar x) = Ok (Scalar (V (origPotential self) x + b)).
Proof.
  intros Hr. apply reachable_well_formed in Hr.
  exists (nearest_index (bin_centers self) x),
         (nth (nearest_index (bin_centers self) x) (bias_grid_energy self) 0).
  split; [apply find_nearest_scalar|].
  split; [|apply ene_scalar; exact Hr].
  destruct Hr as (Hne & He & _).
  apply getitem1_nth. rewrite He. apply nearest_index_lt. exact Hne.
Qed.

(** * The bin centers *)

Lemma Ok_inj {A : Type} (a b : A) : Ok a = Ok b -> a = b.
Proof. intros H. injection H as ->. reflexivity. Qed.

Lemma scaled_fraction_bounds (d q i N : Q) :
  0 <= d -> 0 < N -> 0 <= i -> i <= N -> q * N == d ->
  0 <= i * q /\ i * q <= d.
Proof.
  intros Hd HN Hi HiN Hq.
  assert (Hq0 : 0 <= q).
  { destruct (Qlt_le_dec q 0) as [Hneg|Hpos]; [|exact Hpos].
    exfalso. assert (q * N < 0).
    { setoid_replace (q * N) with (- ((- q) * N)) by ring.
      assert (0 < (- q) * N) by (apply Qmult_lt_0_compat; lra). lra. }
    lra. }
  split.
  - apply Qmult_le_0_compat; assumption.
  - rewrite <- Hq. rewrite (Qmult_comm q N).
    apply Qmult_le_compat_r; assumption.
Qed.

Lemma linspace_bounds (start stop : Q) (num : Z) (l : list Q) :
  start <= stop -> linspace start stop num = Ok l ->
  Forall (fun c => start <= c /\ c <= stop) l.
Proof.
  intros Hle. unfold linspace.
  destruct (num <? 0)%Z eqn:Hneg; [discriminate|].
  apply Z.ltb_ge in Hneg.
  destruct (Z.to_nat num) as [|[|k]] eqn:Hn; intros H; apply Ok_inj in H; subst l.
  - constructor.
  - constructor; [split; lra|constructor].
  - cbv zeta. apply Forall_app. split.
    + apply Forall_forall. intros c Hc.
      apply in_map_iff in Hc. destruct Hc as (i & <- & Hi).
      apply in_seq in Hi.
      assert (HN : inject_Z (num - 1) == inject_Z (Z.of_nat (S k))).
      { apply inject_Z_injective. lia. }
      assert (HNpos : 0 < inject_Z (num - 1)).
      { change 0 with (inject_Z 0). rewrite <- Zlt_Qlt. lia. }
      destruct (scaled_fraction_bounds (stop - start)
                  ((stop - start) / inject_Z (num - 1))
                  (inject_Z (Z.of_nat i)) (inject_Z (num - 1))) as [H1 H2].
      * lra.
      * exact HNpos.
      * change 0 with (inject_Z 0). rewrite <- Zle_Qle. lia.
      * rewrite <- Zle_Qle. lia.
      * field. lra.
      * split; lra.
    + constructor; [split; lra|constructor].
Qed.

Lemma half_bin_bounds (lo hi : Q) (nb : Z) :
  lo <= hi -> (1 <= nb)%Z ->
  0 <= (hi - lo) / (2 * inject_Z nb) /\
  2 * ((hi - lo) / (2 * inject_Z nb)) <= hi - lo.
Proof.
  intros Hle Hnb.
  assert (Hpos : 1 <= inject_Z nb).
  { change 1 with (inject_Z 1). rewrite <- Zle_Qle. exact Hnb. }
  destruct (scaled_fraction_bounds (hi - lo) ((hi - lo) / (2 * inject_Z nb))
              2 (2 * inject_Z nb)) as [H1 H2]; try lra.
  field. lra.
Qed.

(** With [lo <= hi], every bin center lies in [[lo, hi]]; with [lo < hi],
    strictly inside. *)
Lemma init_centers_bounds (orig : potential1D) (A sg : Q) (n : Z) (lo hi : Q)
    (nb : Z) (self : metadynamicsPotential) :
  __init__ orig A sg n lo hi nb = Ok self -> lo <= hi ->
  Forall (fun c => lo + (hi - lo) / (2 * inject_Z nb) <= c /\
                   c <= hi - (hi - lo) / (2 * inject_Z nb)) (bin_centers self) /\
  0 <= (hi - lo) / (2 * inject_Z nb) /\
  (lo < hi -> 0 < (hi - lo) / (2 * inject_Z nb)).
Proof.
  intros H Hle. pose proof (init_ok_bins _ _ _ _ _ _ _ _ H) as Hnb.
  destruct (init_positive orig A sg n lo hi nb Hnb) as (c & Hc & _ & E).
  rewrite E in H. injection H as <-. cbn [bin_centers].
  destruct (half_bin_bounds lo hi nb Hle Hnb) as [H0 H2].
  split; [|split; [exact H0|]].
  - eapply linspace_bounds; [|exact Hc]. lra.
  - intros Hlt.
    assert (Hpos : 1 <= inject_Z nb).
    { change 1 with (inject_Z 1). rewrite <- Zle_Qle. exact Hnb. }
    apply Qlt_shift_div_l; lra.
Qed.

Lemma Forall_nth_Q (P : Q -> Prop) (a : list Q) :
  Forall P a -> forall j, (j < length a)%nat -> P (nth j a 0).
Proof.
  intros H j Hj. rewrite Forall_forall in H. apply H. apply nth_In. exact Hj.
Qed.

Lemma searchsorted_all_ge (a : list Q) (v : Q) :
  Forall (fun c => v <= c) a -> searchsorted_left a v = 0%nat.
Proof.
  intros H. unfold searchsorted_left. apply binsearch_all_ge; [|lia].
  exact (Forall_nth_Q (fun c => v <= c) a H).
Qed.

Lemma searchsorted_all_lt (a : list Q) (v : Q) :
  Forall (fun c => c < v) a -> searchsorted_left a v = length a.
Proof.
  intros H. unfold searchsorted_left. apply binsearch_all_lt; try lia.
  exact (Forall_nth_Q (fun c => c < v) a H).
Qed.

Lemma nearest_index_below (a : list Q) (v : Q) :
  Forall (fun c => v <= c) a -> nearest_index a v = 0%nat.
Proof.
  intros H. unfold nearest_index. rewrite (searchsorted_all_ge a v H). reflexivity.
Qed.

Lemma nearest_index_above (a : list Q) (v : Q) :
  Forall (fun c => c < v) a -> nearest_index a v = pred (length a).
Proof.
  intros H. unfold nearest_index. rewrite (searchsorted_all_lt a v H).
  destruct (length a) as [|m]; [reflexivity|].
  cbn [Nat.ltb Nat.leb andb]. rewrite Nat.eqb_refl. reflexivity.
Qed.

(** * What the write path leaves alone *)

Section Frame.

Variable gaussPotential : Q -> Q -> Q -> potential1D.

Lemma update_potential_frame (self self' : metadynamicsPotential) (x : Q) :
  _update_potential gaussPotential self x = Ok self' ->
  same_configuration self self' /\
  current_n self' = current_n self /\
  finished_steps self' = finished_steps self.
Proof.
  unfold _update_potential.
  destruct (zip_with_broadcast Qplus (bias_grid_energy self) _) as [e|]; [|discriminate].
  destruct (zip_with_broadcast Qplus (bias_grid_force self) _) as [f|]; [|discriminate].
  cbn [bind]. intros H. apply Ok_inj in H. subst self'.
  unfold same_configuration; cbn. auto 10.
Qed.

Lemma check_for_metastep_frame (self self' : metadynamicsPotential) (x : Q) :
  check_for_metastep gaussPotential self x = Ok self' -> same_configuration self self'.
Proof.
  unfold check_for_metastep.
  destruct (py_mod (current_n self) (n_trigger self)) as [r|]; [|discriminate].
  cbn [bind]. destruct (r =? 0)%Z.
  - destruct (_update_potential gaussPotential self x) as [d|] eqn:E; [|discriminate].
    cbn [bind]. intros H. apply Ok_inj in H. subst self'.
    apply update_potential_frame in E. destruct E as [E _]. exact E.
  - intros H. apply Ok_inj in H. subst self'.
    unfold same_configuration; cbn. auto 10.
Qed.

Lemma run_frame (self self' : metadynamicsPotential) (xs : list Q) :
  run gaussPotential self xs = Ok self' -> same_configuration self self'.
Proof.
  revert self. induction xs as [|x xs IH]; intros self H; cbn in H.
  - apply Ok_inj in H. subst self'. unfold same_configuration. auto 10.
  - destruct (check_for_metastep gaussPotential self x) as [s|] eqn:E; [|discriminate].
    cbn [bind] in H. apply IH in H. apply check_for_metastep_frame in E.
    unfold same_configuration in *.
    destruct H as (H1 & H2 & H3 & H4 & H5), E as (E1 & E2 & E3 & E4 & E5).
    repeat split; congruence.
Qed.

End Frame.

Lemma strictly_increasing_samples (f : nat -> Q) (stop : Q) (n : nat) :
  (forall i, f i < f (S i)) ->
  forall a, ((0 < n)%nat -> f (a + n - 1)%nat < stop) ->
  strictly_increasing (map f (seq a n) ++ [stop]) = true.
Proof.
  intros Hf. induction n as [|n IH]; intros a Hlast; [reflexivity|].
  cbn [seq map app].
  destruct n as [|n].
  - cbn. rewrite andb_true_r. apply Qltb_lt.
    replace a with (a + 1 - 1)%nat at 1 by lia. apply Hlast. lia.
  - specialize (IH (S a)). cbn [seq map app] in IH |- *.
    cbn [strictly_increasing]. apply andb_true_iff. split.
    + apply Qltb_lt. apply Hf.
    + apply IH. intros _.
      replace (S a + S n - 1)%nat with (a + S (S n) - 1)%nat by lia.
      apply Hlast. lia.
Qed.

Lemma linspace_increasing (start stop : Q) (num : Z) (l : list Q) :
  ((2 <= num)%Z -> start < stop) -> linspace start stop num = Ok l ->
  strictly_increasing l = true.
Proof.
  intros Hlt. unfold linspace.
  destruct (num <? 0)%Z eqn:Hneg; [discriminate|].
  apply Z.ltb_ge in Hneg.
  destruct (Z.to_nat num) as [|[|k]] eqn:Hn; intros H; apply Ok_inj in H; subst l;
    [reflexivity|reflexivity|].
  cbv zeta.
  assert (Hnum : num = Z.of_nat (S (S k))) by lia.
  specialize (Hlt ltac:(lia)).
  assert (HN : inject_Z (num - 1) == inject_Z (Z.of_nat k) + 1).
  { replace (num - 1)%Z with (Z.of_nat k + 1)%Z by lia.
    rewrite inject_Z_plus. reflexivity. }
  assert (HNpos : 0 < inject_Z (num - 1)).
  { change 0 with (inject_Z 0). rewrite <- Zlt_Qlt. lia. }
  set (step := (stop - start) / inject_Z (num - 1)).
  assert (Hstep : step * inject_Z (num - 1) == stop - start)
    by (unfold step; field; lra).
  assert (Hpos : 0 < step).
  { unfold step. apply Qlt_shift_div_l; [exact HNpos|lra]. }
  apply strictly_increasing_samples.
  - intros i.
    assert (E : inject_Z (Z.of_nat (S i)) == inject_Z (Z.of_nat i) + 1).
    { replace (Z.of_nat (S i)) with (Z.of_nat i + 1)%Z by lia.
      rewrite inject_Z_plus. reflexivity. }
    rewrite E. lra.
  - intros _. replace (0 + S k - 1)%nat with k by lia.
    rewrite HN in Hstep.
    assert (E : stop == start + (inject_Z (Z.of_nat k) + 1) * step) by lra.
    rewrite E. lra.
Qed.

(** With [lo < hi] the bin centers are strictly increasing. *)
Lemma init_centers_increasing (orig : potential1D) (A sg : Q) (n : Z) (lo hi : Q)
    (nb : Z) (self : metadynamicsPotential) :
  __init__ orig A sg n lo hi nb = Ok self -> lo < hi ->
  strictly_increasing (bin_centers self) = true.
Proof.
  intros H Hlt. pose proof (init_ok_bins _ _ _ _ _ _ _ _ H) as Hnb.
  destruct (init_positive orig A sg n lo hi nb Hnb) as (c & Hc & _ & E).
  rewrite E in H. apply Ok_inj in H. subst self. cbn [bin_centers].
  eapply linspace_increasing; [|exact Hc].
  intros H2.
  assert (Hpos : 2 <= inject_Z nb).
  { change 2 with (inject_Z 2). rewrite <- Zle_Qle. exact H2. }
  set (h := (hi - lo) / (2 * inject_Z nb)).
  assert (Hh : h * (2 * inject_Z nb) == hi - lo) by (unfold h; field; lra).
  assert (Hh0 : 0 < h) by (unfold h; apply Qlt_shift_div_l; lra).
  assert (4 * h <= hi - lo).
  { rewrite <- Hh. setoid_replace (h * (2 * inject_Z nb)) with (2 * h * inject_Z nb) by ring.
    setoid_replace (4 * h) with (2 * h * 2) by ring.
    apply Qmult_le_l; lra. }
  lra.
Qed.

(** On a grid over [lo < hi], after any number of steps, the bin a scalar
    query is looked up in holds a center nearest to the query. *)
Lemma grid_lookup_is_nearest (gaussPotential : Q -> Q -> Q -> potential1D)
    (orig : potential1D) (A sg : Q) (n : Z) (lo hi : Q) (nb : Z)
    (self0 self : metadynamicsPotential) (xs : list Q) (v : Q) :
  __init__ orig A sg n lo hi nb = Ok self0 ->
  run gaussPotential self0 xs = Ok self ->
  lo < hi ->
  _find_nearest (bin_centers self) (Scalar v) =
    Ok (Scalar (nearest_index (bin_centers self) v)) /\
  is_nearest (bin_centers self) v (nearest_index (bin_centers self) v).
Proof.
  intros Hinit Hrun Hlt. split; [apply find_nearest_scalar|].
  destruct (run_frame _ _ _ _ Hrun) as (_ & _ & _ & _ & Ec). rewrite Ec.
  apply nearest_index_is_nearest.
  - apply (init_well_formed _ _ _ _ _ _ _ _ Hinit).
  - eapply init_centers_increasing; eassumption.
Qed.

(** C6: on a grid constructed over [[lo, hi]] and after any number of
    steps, a query at or below [lo] is looked up in bin 0, the bin of [lo]
    itself, and a query above [hi] in the last bin, [numbins - 1]; the
    lookup does not raise and [ene] reads the bias stored in that edge
    bin. *)
Theorem out_of_range_clamp (gaussPotential : Q -> Q -> Q -> potential1D)
    (orig : potential1D) (A sg : Q) (n : Z) (lo hi : Q) (nb : Z)
    (self0 self : metadynamicsPotential) (xs : list Q) (below above : Q) :
  __init__ orig A sg n lo hi nb = Ok self0 ->
  run gaussPotential self0 xs = Ok self ->
  lo <= hi -> below <= lo -> hi < above ->
  _find_nearest (bin_centers self) (Scalar below) = Ok (Scalar 0%nat) /\
  _find_nearest (bin_centers self) (Scalar lo) = Ok (Scalar 0%nat) /\
  ene self (Scalar below) =
    Ok (Scalar (V orig below + nth 0 (bias_grid_energy self) 0)) /\
  _find_nearest (bin_centers self) (Scalar above) = Ok (Scalar (Z.to_nat nb - 1)%nat) /\
  ene self (Scalar above) =
    Ok (Scalar (V orig above + nth (Z.to_nat nb - 1) (bias_grid_energy self) 0)).
Proof.
  intros Hinit Hrun Hle Hbelow_lo Habove_hi.
  pose proof (init_ok_bins _ _ _ _ _ _ _ _ Hinit) as Hnb.
  destruct (init_centers_bounds _ _ _ _ _ _ _ _ Hinit Hle) as (Hc & Hh & _).
  assert (Hwf : well_formed self).
  { apply (reachable_well_formed gaussPotential).
    eapply run_reachable; [|exact Hrun]. eapply reach_init. exact Hinit. }
  assert (Hlen : length (bin_centers self0) = Z.to_nat nb).
  { destruct (init_positive orig A sg n lo hi nb Hnb) as (c & _ & Hl & E).
    rewrite E in Hinit. apply Ok_inj in Hinit. subst self0. exact Hl. }
  assert (Horig : origPotential self0 = orig).
  { destruct (init_positive orig A sg n lo hi nb Hnb) as (c & _ & Hl & E).
    rewrite E in Hinit. apply Ok_inj in Hinit. subst self0. reflexivity. }
  destruct (run_frame _ _ _ _ Hrun) as (Eo & _ & _ & _ & Ec).
  rewrite <- Ec in Hc, Hlen. rewrite <- Eo in Horig.
  assert (Hbelow : forall w, w <= lo -> nearest_index (bin_centers self) w = 0%nat).
  { intros w Hw. apply nearest_index_below.
    eapply Forall_impl; [|exact Hc]. cbn. intros c [H1 _]. lra. }
  rewrite !find_nearest_scalar, (ene_scalar self below Hwf), (ene_scalar self above Hwf).
  rewrite !Hbelow by lra.
  rewrite (nearest_index_above (bin_centers self) above).
  - rewrite Hlen, Horig.
    replace (pred (Z.to_nat nb)) with (Z.to_nat nb - 1)%nat by lia.
    auto 10.
  - eapply Forall_impl; [|exact Hc]. cbn. intros c [_ H2]. lra.
Qed.

(** * The trigger counter *)

Section Trigger.

Local Open Scope Z_scope.

Lemma quotient_step (n q q' r r' : Z) :
  0 < n -> 0 <= r < n -> 0 <= r' < n -> n * q' + r' = n * q + r + 1 ->
  (r + 1 = n /\ r' = 0 /\ q' = q + 1) \/ (r + 1 < n /\ r' = r + 1 /\ q' = q).
Proof.
  intros Hn Hr Hr' E.
  assert (H : n * (q' - q) = r + 1 - r') by lia.
  assert (Hd : q' - q = 0 \/ q' - q = 1).
  { assert (-1 < q' - q) by nia. assert (q' - q < 2) by nia. lia. }
  destruct Hd as [Hd|Hd]; rewrite Hd in H; [right|left]; lia.
Qed.

Lemma succ_div_mod (k n : Z) :
  0 < n ->
  (k mod n + 1 = n /\ (k + 1) mod n = 0 /\ (k + 1) / n = k / n + 1) \/
  (k mod n + 1 < n /\ (k + 1) mod n = k mod n + 1 /\ (k + 1) / n = k / n).
Proof.
  intros Hn. apply (quotient_step n); try exact Hn.
  - apply Z.mod_pos_bound. exact Hn.
  - apply Z.mod_pos_bound. exact Hn.
  - rewrite <- !Z.div_mod by lia. reflexivity.
Qed.

Lemma succ_mod_zero (k n : Z) :
  0 < n -> (k + 1) mod n = 0 -> k mod n = n - 1 /\ (k + 1) / n = k / n + 1.
Proof.
  intros Hn H. destruct (succ_div_mod k n Hn) as [(H1 & H2 & H3)|(H1 & H2 & H3)].
  - lia.
  - pose proof (Z.mod_pos_bound k n Hn). lia.
Qed.

Lemma succ_mod_nonzero (k n : Z) :
  0 < n -> (k + 1) mod n <> 0 -> (k + 1) mod n = k mod n + 1 /\ (k + 1) / n = k / n.
Proof.
  intros Hn H. destruct (succ_div_mod k n Hn) as [(H1 & H2 & H3)|(H1 & H2 & H3)].
  - contradiction.
  - lia.
Qed.

Lemma counter_guard (k n : Z) :
  0 < n -> (1 + k mod n) mod n = (k + 1) mod n.
Proof.
  intros Hn. rewrite Zplus_mod_idemp_r. f_equal. lia.
Qed.

Section Counter.

Variable gaussPotential : Q -> Q -> Q -> potential1D.

Lemma run_app (self : metadynamicsPotential) (xs ys : list Q) :
  run gaussPotential self (xs ++ ys) =
  (self' <- run gaussPotential self xs ;; run gaussPotential self' ys).
Proof.
  revert self. induction xs as [|x xs IH]; intros self; cbn; [reflexivity|].
  destruct (check_for_metastep gaussPotential self x) as [s|]; cbn [bind];
    [apply IH|reflexivity].
Qed.

(** One call made after [k] calls: it fires when [k + 1] is a multiple of
    the trigger interval and idles otherwise. *)
Lemma step_outcome (self : metadynamicsPotential) (x : Q) (k : Z) :
  well_formed self -> 1 <= n_trigger self ->
  current_n self = 1 + k mod n_trigger self ->
  exists self', check_for_metastep gaussPotential self x = Ok self' /\
    if (k + 1) mod n_trigger self =? 0
    then fires gaussPotential self x self'
    else idles self self'.
Proof.
  intros Hwf Hn Hc. unfold check_for_metastep, py_mod.
  replace (n_trigger self =? 0) with false by (symmetry; apply Z.eqb_neq; lia).
  cbn [bind]. rewrite Hc, counter_guard by lia.
  destruct ((k + 1) mod n_trigger self =? 0) eqn:E.
  - rewrite (update_potential_ok gaussPotential self x Hwf). cbn [bind].
    eexists. split; [reflexivity|].
    unfold fires. eexists. split; [apply update_potential_ok; exact Hwf|].
    reflexivity.
  - eexists. split; [reflexivity|]. unfold idles. rewrite Hc. reflexivity.
Qed.

Lemma run_counters (orig : potential1D) (A sg : Q) (n : Z) (lo hi : Q) (nb : Z)
    (self0 : metadynamicsPotential) :
  __init__ orig A sg n lo hi nb = Ok self0 -> 1 <= n ->
  forall xs, exists self,
    run gaussPotential self0 xs = Ok self /\
    well_formed self /\
    n_trigger self = n /\
    current_n self = 1 + Z.of_nat (length xs) mod n /\
    finished_steps self = Z.of_nat (length xs) / n.
Proof.
  intros Hinit Hn.
  pose proof (init_well_formed _ _ _ _ _ _ _ _ Hinit) as Hwf0.
  pose proof (init_ok_bins _ _ _ _ _ _ _ _ Hinit) as Hnb.
  destruct (init_positive orig A sg n lo hi nb Hnb) as (c & _ & _ & E).
  rewrite E in Hinit. apply Ok_inj in Hinit.
  induction xs as [|x xs IH] using rev_ind.
  - exists self0. split; [reflexivity|]. split; [exact Hwf0|].
    subst self0. cbn [n_trigger current_n finished_steps length Z.of_nat].
    rewrite Zmod_0_l, Zdiv_0_l. auto.
  - destruct IH as (self & Hrun & Hwf & Hnt & Hcur & Hfin).
    rewrite <- Hnt in Hcur, Hn.
    destruct (step_outcome self x (Z.of_nat (length xs)) Hwf Hn Hcur)
      as (self' & Hstep & Hout).
    exists self'. rewrite run_app, Hrun. cbn [bind run]. rewrite Hstep. cbn [bind].
    split; [reflexivity|].
    split; [eapply check_for_metastep_well_formed; eassumption|].
    destruct (check_for_metastep_frame _ _ _ _ Hstep) as (_ & Hnt' & _).
    split; [congruence|].
    rewrite length_app. cbn [length].
    replace (Z.of_nat (length xs + 1)) with (Z.of_nat (length xs) + 1) by lia.
    rewrite Hnt in *.
    destruct ((Z.of_nat (length xs) + 1) mod n =? 0) eqn:Eg.
    + apply Z.eqb_eq in Eg.
      assert (Hpos : 0 < n) by lia.
      destruct (succ_mod_zero _ _ Hpos Eg) as [_ Hd].
      destruct Hout as (d & _ & ->). cbn [current_n finished_steps set_counters].
      rewrite Eg, Hd, Hfin. split; reflexivity.
    + apply Z.eqb_neq in Eg.
      assert (Hpos : 0 < n) by lia.
      destruct (succ_mod_nonzero _ _ Hpos Eg) as [Hm Hd].
      unfold idles in Hout. subst self'. cbn [current_n finished_steps set_counters].
      rewrite Hm, Hd, Hcur, Hfin. split; [lia|reflexivity].
Qed.

End Counter.

(** C2: for a trigger interval [n >= 1] and a freshly constructed object,
    the call of [check_for_metastep] that follows [length xs] earlier calls
    deposits a kernel exactly when its ordinal number [length xs + 1] is a
    multiple of [n], and only increments [current_n] otherwise; after [k]
    calls [finished_steps] is [k / n]. *)
Theorem deposition_schedule (gaussPotential : Q -> Q -> Q -> potential1D)
    (orig : potential1D) (A sg : Q) (n : Z) (lo hi : Q) (nb : Z)
    (self0 : metadynamicsPotential) (xs : list Q) (x : Q) :
  __init__ orig A sg n lo hi nb = Ok self0 -> 1 <= n ->
  exists self self',
    run gaussPotential self0 xs = Ok self /\
    finished_steps self = Z.of_nat (length xs) / n /\
    check_for_metastep gaussPotential self x = Ok self' /\
    run gaussPotential self0 (xs ++ [x]) = Ok self' /\
    (if (Z.of_nat (length xs) + 1) mod n =? 0
     then fires gaussPotential self x self'
     else idles self self') /\
    finished_steps self' = (Z.of_nat (length xs) + 1) / n.
Proof.
  intros Hinit Hn.
  destruct (run_counters gaussPotential _ _ _ _ _ _ _ _ Hinit Hn xs)
    as (self & Hrun & Hwf & Hnt & Hcur & Hfin).
  destruct (run_counters gaussPotential _ _ _ _ _ _ _ _ Hinit Hn (xs ++ [x]))
    as (self' & Hrun' & _ & _ & _ & Hfin').
  exists self, self'.
  rewrite <- Hnt in Hcur.
  destruct (step_outcome gaussPotential self x (Z.of_nat (length xs)) Hwf
              ltac:(lia) Hcur) as (s & Hstep & Hout).
  assert (s = self').
  { rewrite run_app, Hrun in Hrun'. cbn [bind run] in Hrun'.
    rewrite Hstep in Hrun'. cbn [bind] in Hrun'. apply Ok_inj in Hrun'. exact Hrun'. }
  subst s. rewrite Hnt in Hout.
  rewrite length_app in Hfin'. cbn [length] in Hfin'.
  replace (Z.of_nat (length xs + 1)) with (Z.of_nat (length xs) + 1) in Hfin' by lia.
  auto 10.
Qed.

(** C8: for a trigger interval [n >= 1], [current_n] is 1 after
    construction and lies in [[1, n]] after every call of
    [check_for_metastep]; a call either fires, and then leaves
    [current_n = 1], or increments [current_n] by one, and [current_n] is 1
    after a call exactly when that call fired. *)
Theorem counter_range_invariant (gaussPotential : Q -> Q -> Q -> potential1D)
    (orig : potential1D) (A sg : Q) (n : Z) (lo hi : Q) (nb : Z)
    (self0 self : metadynamicsPotential) (xs : list Q) (x : Q) :
  __init__ orig A sg n lo hi nb = Ok self0 -> 1 <= n ->
  run gaussPotential self0 xs = Ok self ->
  current_n self0 = 1 /\
  1 <= current_n self <= n /\
  exists self',
    check_for_metastep gaussPotential self x = Ok self' /\
    1 <= current_n self' <= n /\
    ((fires gaussPotential self x self' /\ current_n self' = 1) \/
     (idles self self' /\ current_n self' = current_n self + 1)) /\
    (fires gaussPotential self x self' <-> current_n self' = 1).
Proof.
  intros Hinit Hn Hrun.
  destruct (run_counters gaussPotential _ _ _ _ _ _ _ _ Hinit Hn xs)
    as (s & Hrun1 & Hwf & Hnt & Hcur & _).
  rewrite Hrun in Hrun1. apply Ok_inj in Hrun1. subst s.
  split.
  { pose proof Hinit as Hi.
    destruct (init_positive orig A sg n lo hi nb (init_ok_bins _ _ _ _ _ _ _ _ Hinit))
      as (c & _ & _ & E).
    rewrite E in Hi. apply Ok_inj in Hi. subst self0. reflexivity. }
  pose proof (Z.mod_pos_bound (Z.of_nat (length xs)) n ltac:(lia)) as Hb.
  split; [lia|].
  rewrite <- Hnt in Hcur.
  destruct (step_outcome gaussPotential self x (Z.of_nat (length xs)) Hwf
              ltac:(lia) Hcur) as (self' & Hstep & Hout).
  exists self'. split; [exact Hstep|].
  rewrite Hnt in Hout, Hcur.
  destruct ((Z.of_nat (length xs) + 1) mod n =? 0) eqn:Eg.
  - assert (Hone : current_n self' = 1) by (destruct Hout as (d & _ & ->); reflexivity).
    split; [lia|]. split; [left; auto|]. split; auto.
  - apply Z.eqb_neq in Eg.
    assert (Hpos : 0 < n) by lia.
    destruct (succ_mod_nonzero _ _ Hpos Eg) as [Hm _].
    pose proof (Z.mod_pos_bound (Z.of_nat (length xs) + 1) n ltac:(lia)) as Hb'.
    assert (Hinc : current_n self' = current_n self + 1)
      by (unfold idles in Hout; subst self'; reflexivity).
    split; [lia|]. split; [right; auto|].
    split.
    + intros (d & _ & ->). cbn in Hinc. lia.
    + intros H1. lia.
Qed.

End Trigger.

(** * Additivity of deposition *)

Lemma Qsum_perm (l l' : list Q) : Permutation l l' -> Qsum l == Qsum l'.
Proof.
  induction 1 as [|x l l' _ IH|x y l|l l' l'' _ IH1 _ IH2]; cbn.
  - reflexivity.
  - rewrite IH. reflexivity.
  - ring.
  - rewrite IH1. exact IH2.
Qed.

Section Additive.

Variable gaussPotential : Q -> Q -> Q -> potential1D.

Lemma update_potential_entry (self self' : metadynamicsPotential) (mu : Q) (i : nat) :
  well_formed self -> _update_potential gaussPotential self mu = Ok self' ->
  (i < length (bin_centers self))%nat ->
  nth i (bias_grid_energy self') 0 =
    nth i (bias_grid_energy self) 0 + kernel_at gaussPotential self i mu /\
  nth i (bias_grid_force self') 0 =
    nth i (bias_grid_force self) 0 + kernel_force_at gaussPotential self i mu.
Proof.
  intros Hwf H Hi. rewrite (update_potential_ok gaussPotential self mu Hwf) in H.
  apply Ok_inj in H. subst self'. destruct Hwf as (_ & He & Hf).
  cbn [bias_grid_energy bias_grid_force]. unfold kernel_at, kernel_force_at.
  split.
  - rewrite (map2_nth Qplus _ _ i 0
               (V (gaussPotential (amplitude self) mu (sigma self)) 0) 0)
      by (rewrite ?length_map; lia).
    rewrite map_nth. reflexivity.
  - rewrite (map2_nth Qplus _ _ i 0
               (dVdpos (gaussPotential (amplitude self) mu (sigma self)) 0) 0)
      by (rewrite ?length_map; lia).
    rewrite map_nth. reflexivity.
Qed.

Lemma deposit_all_sum (ps : list Q) :
  forall self, well_formed self ->
  exists after,
    deposit_all gaussPotential self ps = Ok after /\
    well_formed after /\
    same_configuration self after /\
    forall i, (i < length (bin_centers self))%nat ->
      nth i (bias_grid_energy after) 0 ==
        nth i (bias_grid_energy self) 0 + Qsum (map (kernel_at gaussPotential self i) ps) /\
      nth i (bias_grid_force after) 0 ==
        nth i (bias_grid_force self) 0 + Qsum (map (kernel_force_at gaussPotential self i) ps).
Proof.
  induction ps as [|mu ps IH]; intros self Hwf.
  - exists self. split; [reflexivity|]. split; [exact Hwf|].
    split; [unfold same_configuration; auto 10|].
    intros i _. cbn [map]. unfold Qsum. cbn [fold_right]. split; ring.
  - cbn [deposit_all].
    destruct (_update_potential gaussPotential self mu) as [s1|] eqn:E1.
    2:{ rewrite (update_potential_ok gaussPotential self mu Hwf) in E1. discriminate. }
    cbn [bind].
    pose proof (update_potential_well_formed gaussPotential _ _ _ Hwf E1) as Hwf1.
    destruct (update_potential_frame gaussPotential _ _ _ E1) as [Hcfg _].
    destruct (IH s1 Hwf1) as (after & Hrun & Hwfa & Hcfga & Hsum).
    exists after. split; [exact Hrun|]. split; [exact Hwfa|].
    destruct Hcfg as (C1 & C2 & C3 & C4 & C5), Hcfga as (D1 & D2 & D3 & D4 & D5).
    split; [unfold same_configuration; repeat split; congruence|].
    intros i Hi.
    destruct (update_potential_entry self s1 mu i Hwf E1 Hi) as [Ee Ef].
    destruct (Hsum i) as [Se Sf]; [rewrite C5; exact Hi|].
    unfold kernel_at, kernel_force_at in *.
    rewrite C3, C4, C5 in Se, Sf.
    rewrite Se, Sf, Ee, Ef. cbn [map]. unfold Qsum. cbn [fold_right].
    split; ring.
Qed.

End Additive.

(** C7: after any sequence of depositions every entry of
    [bias_grid_energy] is its value before them plus the sum of the kernels
    deposited, evaluated at the center of its bin, and every entry of
    [bias_grid_force] likewise with the derivatives of the kernels; the
    grids keep their length, and depositing the same kernels in another
    order gives the same grids, entry by entry. *)
Theorem deposition_additive (gaussPotential : Q -> Q -> Q -> potential1D)
    (self : metadynamicsPotential) (ps ps' : list Q) :
  well_formed self -> Permutation ps ps' ->
  exists after after',
    deposit_all gaussPotential self ps = Ok after /\
    deposit_all gaussPotential self ps' = Ok after' /\
    length (bias_grid_energy after) = length (bin_centers self) /\
    length (bias_grid_force after) = length (bin_centers self) /\
    forall i, (i < length (bin_centers self))%nat ->
      nth i (bias_grid_energy after) 0 ==
        nth i (bias_grid_energy self) 0 +
        Qsum (map (kernel_at gaussPotential self i) ps) /\
      nth i (bias_grid_force after) 0 ==
        nth i (bias_grid_force self) 0 +
        Qsum (map (kernel_force_at gaussPotential self i) ps) /\
      nth i (bias_grid_energy after') 0 == nth i (bias_grid_energy after) 0 /\
      nth i (bias_grid_force after') 0 == nth i (bias_grid_force after) 0.
Proof.
  intros Hwf Hperm.
  destruct (deposit_all_sum gaussPotential ps self Hwf)
    as (after & Hrun & (_ & He & Hf) & (_ & _ & _ & _ & Hc) & Hsum).
  destruct (deposit_all_sum gaussPotential ps' self Hwf)
    as (after' & Hrun' & _ & _ & Hsum').
  exists after, after'.
  split; [exact Hrun|]. split; [exact Hrun'|].
  split; [congruence|]. split; [congruence|].
  intros i Hi.
  destruct (Hsum i Hi) as [Se Sf]. destruct (Hsum' i Hi) as [Se' Sf'].
  split; [exact Se|]. split; [exact Sf|].
  rewrite Se, Sf, Se', Sf'.
  split; apply Qplus_comp; try reflexivity; apply Qsum_perm;
    apply Permutation_map; apply Permutation_sym; exact Hperm.
Qed.

(** * The read path on a sequence *)

Lemma mapM_total {A B : Type} (f : A -> result B) (g : A -> B) (xs : list A) :
  (forall x, f x = Ok (g x)) -> mapM f xs = Ok (map g xs).
Proof.
  intros H. induction xs as [|x xs IH]; cbn; [reflexivity|].
  rewrite H, IH. reflexivity.
Qed.

Lemma np_array_scalars {A B : Type} (h : A -> B) (xs : list A) :
  np_array (map (fun x => Scalar (h x)) xs) = Array (map h xs).
Proof.
  unfold np_array. f_equal.
  induction xs as [|x xs IH]; cbn; [reflexivity|]. rewrite IH. reflexivity.
Qed.

Lemma map2_map {A B C D : Type} (f : B -> C -> D) (g : A -> B) (h : A -> C)
    (xs : list A) :
  map2 f (map g xs) (map h xs) = map (fun x => f (g x) (h x)) xs.
Proof.
  induction xs as [|x xs IH]; cbn; [reflexivity|]. rewrite IH. reflexivity.
Qed.

Lemma zip_with_broadcast_map {A B C D : Type} (f : B -> C -> D) (g : A -> B)
    (h : A -> C) (xs : list A) :
  zip_with_broadcast f (map g xs) (map h xs) = Ok (map (fun x => f (g x) (h x)) xs).
Proof.
  rewrite zip_with_broadcast_same_length by (rewrite !length_map; reflexivity).
  rewrite map2_map. reflexivity.
Qed.

(** [ene] on a sequence: the elementwise sum, squeezed. *)
Lemma ene_array (self : metadynamicsPotential) (xs : list Q) :
  well_formed self ->
  ene self (Array xs) =
    Ok (squeeze (Array (map (fun x =>
          V (origPotential self) x +
          nth (nearest_index (bin_centers self) x) (bias_grid_energy self) 0) xs))).
Proof.
  intros Hwf. pose proof Hwf as (Hne & He & _). unfold ene.
  rewrite (mapM_total _
             (fun x => Scalar (nth (nearest_index (bin_centers self) x)
                                   (bias_grid_energy self) 0))).
  2:{ intros x. rewrite find_nearest_scalar. cbn [bind getitem].
      rewrite getitem1_nth with (d := 0%Q)
        by (rewrite He; apply nearest_index_lt; exact Hne).
      reflexivity. }
  cbn [bind]. rewrite np_array_scalars. unfold _calculate_energies.
  destruct xs as [|x [|x' xs]].
  - reflexivity.
  - reflexivity.
  - change (squeeze (Array (x :: x' :: xs))) with (Array (x :: x' :: xs)).
    cbn [nd_map broadcast2]. rewrite zip_with_broadcast_map. reflexivity.
Qed.

(** [force] on a sequence of two or more positions: [_find_nearest] asks
    for the truth value of an array. *)
Lemma force_sequence_raises (self : metadynamicsPotential) (x x' : Q) (xs : list Q) :
  force self (Array (x :: x' :: xs)) = Raise ValueError.
Proof. reflexivity. Qed.

(** C5 (amended): in every reachable state [ene] and [force] accept a
    scalar and return a scalar, and [ene] accepts a sequence: a sequence of
    length other than 1 gives a sequence of the same length, and a sequence
    of length 1 gives a scalar, because the result is squeezed. *)
Theorem read_path_shapes (gaussPotential : Q -> Q -> Q -> potential1D)
    (self : metadynamicsPotential) (x x' : Q) (xs : list Q) :
  reachable gaussPotential self ->
  shape_contract (ene self) (Scalar x) /\
  shape_contract (force self) (Scalar x) /\
  shape_contract (ene self) (Array []) /\
  shape_contract (ene self) (Array (x :: x' :: xs)) /\
  (exists e, ene self (Array [x]) = Ok (Scalar e)).
Proof.
  intros Hr. apply reachable_well_formed in Hr.
  split; [eexists; split; [apply ene_scalar; exact Hr|exact I]|].
  split; [eexists; split; [apply force_scalar; exact Hr|exact I]|].
  split; [eexists; split; [apply ene_array; exact Hr|reflexivity]|].
  split.
  - eexists. split; [apply ene_array; exact Hr|].
    cbn [squeeze map same_shape length]. rewrite length_map. reflexivity.
  - eexists. rewrite (ene_array self [x] Hr). reflexivity.
Qed.

(** * Construction *)

(** C4 (amended): construction checks none of [n_trigger], [sigma] and
    the bounds.  With a positive bin count it succeeds whatever they are and
    stores them unchanged, with zeroed grids and the counters at 1 and 0.
    It fails only for a non-positive bin count, with numpy's ValueError for
    a negative one and ZeroDivisionError for zero, and then builds no
    object. *)
Theorem construction_checks_bin_count_only (orig : potential1D) (A sg : Q) (n : Z)
    (lo hi : Q) (nb : Z) (p : positive) :
  (1 <= nb)%Z ->
  (exists self, __init__ orig A sg n lo hi nb = Ok self /\
     origPotential self = orig /\ n_trigger self = n /\
     amplitude self = A /\ sigma self = sg /\
     bias_grid_energy self = repeat 0 (Z.to_nat nb) /\
     bias_grid_force self = repeat 0 (Z.to_nat nb) /\
     length (bin_centers self) = Z.to_nat nb /\
     current_n self = 1%Z /\ finished_steps self = 0%Z) /\
  __init__ orig A sg n lo hi 0 = Raise ZeroDivisionError /\
  __init__ orig A sg n lo hi (Z.neg p) = Raise ValueError.
Proof.
  intros Hnb. split; [|split].
  - destruct (init_positive orig A sg n lo hi nb Hnb) as (c & _ & Hl & E).
    eexists. split; [exact E|]. cbn. auto 10.
  - apply init_zero_bins.
  - apply init_negative_bins. lia.
Qed.

Lemma construction_not_validated :
  (0 <= 0)%Z /\ - (1 # 10) <= 0 /\ 0 <= 10 /\
  is_ok (__init__ harmonic (1 # 10) (- (1 # 10)) 0 10 0 4) = true /\
  ~ eager_validation.
Proof.
  split; [lia|]. split; [discriminate|]. split; [discriminate|].
  split; [reflexivity|].
  intros H.
  specialize (H harmonic (1 # 10) (- (1 # 10)) 0%Z 10 0 4%Z (or_introl (Z.le_refl 0))).
  discriminate H.
Qed.

(** * The base class *)

(** C10: [_bias_baseclass.__init__] raises NameError for all arguments:
    it reads the bare name [y_shift], which is not a local variable of the
    call although the class has an attribute of that name. *)
Theorem bias_baseclass_init_name_error (self integrator system : _bias_baseclass.pyobj) :
  _bias_baseclass.__init__ self integrator system = Raise NameError /\
  _bias_baseclass.load_name
    [("self", self); ("integrator", integrator); ("system", system)]%string
    "y_shift" = Raise NameError /\
  _bias_baseclass.load_attr "y_shift" = Ok (_bias_baseclass.PySymbol "Voffset").
Proof. repeat split. Qed.

(** * The perturbed system *)

Import PerturbedSystem.

(** C9: [set_current_state] stores [current_force] as the force and as
    the velocities: after the call [_currentVelocities], [_currentForce] and
    the velocity of the current state equal [current_force], and the
    argument [current_velocities] does not influence the resulting state.
    The inherited [_update_energies] is assumed to leave forces and
    velocities alone. *)
Theorem set_current_state_velocity_is_force (Number : Type)
    (_update_energies : perturbedSystem Number -> perturbedSystem Number)
    (dvdlam : Number -> Number) (self : perturbedSystem Number)
    (current_position current_velocities current_velocities' current_force
     current_temperature current_lambda current_dHdLambda : Number) :
  (forall s, _currentVelocities Number (_update_energies s) = _currentVelocities Number s /\
             _currentForce Number (_update_energies s) = _currentForce Number s) ->
  let after :=
    set_current_state Number _update_energies dvdlam self current_position
      current_velocities current_force current_temperature current_lambda
      current_dHdLambda in
  _currentVelocities Number after = current_force /\
  _currentForce Number after = current_force /\
  option_map (velocity Number) (_currentState Number after) = Some current_force /\
  set_current_state Number _update_energies dvdlam self current_position
    current_velocities' current_force current_temperature current_lambda
    current_dHdLambda = after.
Proof.
  intros Hframe after. subst after. unfold set_current_state.
  cbn [_update_dHdLambda update_current_state fst _currentVelocities _currentForce
       _currentState option_map velocity].
  set (s1 := {| _currentPosition := current_position |}).
  destruct (Hframe s1) as [Hv Hf]. rewrite Hv, Hf. cbn. auto.
Qed.

(** * Evaluations *)

Lemma fresh4_constructed :
  __init__ harmonic (1 # 10) (1 # 10) 3 0 10 4 = Ok fresh4.
Proof. reflexivity. Qed.

Lemma fresh4_reachable : reachable bump fresh4.
Proof. exact (reach_init bump _ _ _ _ _ _ _ _ fresh4_constructed). Qed.

Lemma after_calls_run (positions : list Q) :
  is_ok (run bump fresh4 positions) = true ->
  run bump fresh4 positions = Ok (after_calls positions).
Proof.
  unfold after_calls. destruct (run bump fresh4 positions); [reflexivity|discriminate].
Qed.

Lemma after_calls_reachable (positions : list Q) :
  is_ok (run bump fresh4 positions) = true -> reachable bump (after_calls positions).
Proof.
  intros H. eapply run_reachable; [exact fresh4_reachable|].
  apply after_calls_run. exact H.
Qed.

(** The bin centers of [fresh4], and the grid after the first deposition,
    which the third call makes at position 3. *)
Example fresh4_centers :
  Forall2 Qeq (bin_centers fresh4) [5 # 4; 15 # 4; 25 # 4; 35 # 4].
Proof. repeat constructor. Qed.

Example first_deposit_grid :
  Forall2 Qeq (bias_grid_energy (after_calls [1; 2; 3]))
    (map (fun c => V (bump (1 # 10) 3 (1 # 10)) c) (bin_centers fresh4)).
Proof. repeat constructor. Qed.

(** Scenario A: an untouched grid contributes nothing. *)
Example scenario_A :
  ene fresh_default (Scalar 5) = Ok (Scalar (V harmonic 5 + 0)).
Proof. vm_compute. reflexivity. Qed.

(** Scenario C: trigger interval 3, positions 1 to 6. *)
Example scenario_C :
  map (fun k => finished_steps (after_calls (firstn k [1; 2; 3; 4; 5; 6])))
      [0; 1; 2; 3; 4; 5; 6]%nat
  = [0; 0; 0; 1; 1; 1; 2]%Z.
Proof. vm_compute. reflexivity. Qed.

(** Scenario D: on the default grid over [0, 10], -1000 and 0 are looked up
    in the same bin. *)
Example scenario_D :
  _find_nearest (bin_centers fresh_default) (Scalar (- 1000)) = Ok (Scalar 0%nat) /\
  _find_nearest (bin_centers fresh_default) (Scalar 0) = Ok (Scalar 0%nat).
Proof. split; vm_compute; reflexivity. Qed.

(** [force] with a sequence of two positions, on the default object. *)
Example force_on_pair : force fresh_default (Array [1; 2]) = Raise ValueError.
Proof. reflexivity. Qed.

Lemma ene_sum_decomposition_witness :
  reachable bump (after_calls [1; 2; 3]) /\
  exists i b,
    _find_nearest (bin_centers (after_calls [1; 2; 3])) (Scalar 3) = Ok (Scalar i) /\
    getitem1 (bias_grid_energy (after_calls [1; 2; 3])) i = Ok b /\
    ene (after_calls [1; 2; 3]) (Scalar 3) =
      Ok (Scalar (V (origPotential (after_calls [1; 2; 3])) 3 + b)).
Proof.
  assert (Hr : reachable bump (after_calls [1; 2; 3]))
    by (apply after_calls_reachable; vm_compute; reflexivity).
  split; [exact Hr|].
  exact (ene_sum_decomposition bump (after_calls [1; 2; 3]) 3 Hr).
Defined.

Lemma deposition_schedule_witness :
  __init__ harmonic (1 # 10) (1 # 10) 3 0 10 4 = Ok fresh4 /\ (1 <= 3)%Z /\
  exists self self',
    run bump fresh4 [1; 2; 3; 4; 5] = Ok self /\
    finished_steps self = (Z.of_nat (length [1; 2; 3; 4; 5]) / 3)%Z /\
    check_for_metastep bump self 6 = Ok self' /\
    run bump fresh4 ([1; 2; 3; 4; 5] ++ [6]) = Ok self' /\
    (if ((Z.of_nat (length [1; 2; 3; 4; 5]) + 1) mod 3 =? 0)%Z
     then fires bump self 6 self'
     else idles self self') /\
    finished_steps self' = ((Z.of_nat (length [1; 2; 3; 4; 5]) + 1) / 3)%Z.
Proof.
  split; [reflexivity|]. split; [lia|].
  apply (deposition_schedule bump harmonic (1 # 10) (1 # 10) 3 0 10 4 fresh4
           [1; 2; 3; 4; 5] 6); [reflexivity|lia].
Defined.

Lemma construction_checks_bin_count_only_witness :
  (1 <= 4)%Z /\
  (exists self, __init__ harmonic (1 # 10) (- (1 # 10)) 0 10 0 4 = Ok self /\
     origPotential self = harmonic /\ n_trigger self = 0%Z /\
     amplitude self = 1 # 10 /\ sigma self = - (1 # 10) /\
     bias_grid_energy self = repeat 0 (Z.to_nat 4) /\
     bias_grid_force self = repeat 0 (Z.to_nat 4) /\
     length (bin_centers self) = Z.to_nat 4 /\
     current_n self = 1%Z /\ finished_steps self = 0%Z) /\
  __init__ harmonic (1 # 10) (- (1 # 10)) 0 10 0 0 = Raise ZeroDivisionError /\
  __init__ harmonic (1 # 10) (- (1 # 10)) 0 10 0 (Z.neg 1) = Raise ValueError.
Proof.
  split; [lia|].
  apply (construction_checks_bin_count_only harmonic (1 # 10) (- (1 # 10)) 0 10 0 4 1).
  lia.
Defined.

Lemma singleton_sequence_not_mirrored :
  reachable bump fresh4 /\
  ene fresh4 (Array [5]) = Ok (Scalar (V harmonic 5 + 0)) /\
  ~ shape_contract (ene fresh4) (Array [5]) /\
  force fresh4 (Array [5; 6]) = Raise ValueError /\
  ~ shape_contract (force fresh4) (Array [5; 6]).
Proof.
  assert (He : ene fresh4 (Array [5]) = Ok (Scalar (V harmonic 5 + 0)))
    by (vm_compute; reflexivity).
  split; [exact fresh4_reachable|]. split; [exact He|]. split; [|split].
  - intros (out & H & Hs). rewrite He in H. apply Ok_inj in H. subst out. exact Hs.
  - reflexivity.
  - intros (out & H & _). rewrite force_sequence_raises in H. discriminate H.
Qed.

Lemma read_path_shapes_witness :
  reachable bump (after_calls [1; 2; 3]) /\
  shape_contract (ene (after_calls [1; 2; 3])) (Scalar 3) /\
  shape_contract (force (after_calls [1; 2; 3])) (Scalar 3) /\
  shape_contract (ene (after_calls [1; 2; 3])) (Array []) /\
  shape_contract (ene (after_calls [1; 2; 3])) (Array (3 :: 4 :: [5; 6])) /\
  (exists e, ene (after_calls [1; 2; 3]) (Array [3]) = Ok (Scalar e)).
Proof.
  assert (Hr : reachable bump (after_calls [1; 2; 3]))
    by (apply after_calls_reachable; vm_compute; reflexivity).
  split; [exact Hr|].
  exact (read_path_shapes bump (after_calls [1; 2; 3]) 3 4 [5; 6] Hr).
Defined.

Lemma out_of_range_clamp_witness :
  __init__ harmonic (1 # 10) (1 # 10) 3 0 10 4 = Ok fresh4 /\
  run bump fresh4 [1; 2; 3] = Ok (after_calls [1; 2; 3]) /\
  0 <= 10 /\ - 1000 <= 0 /\ 10 < 25 /\
  _find_nearest (bin_centers (after_calls [1; 2; 3])) (Scalar (- 1000)) = Ok (Scalar 0%nat) /\
  _find_nearest (bin_centers (after_calls [1; 2; 3])) (Scalar 0) = Ok (Scalar 0%nat) /\
  ene (after_calls [1; 2; 3]) (Scalar (- 1000)) =
    Ok (Scalar (V harmonic (- 1000) + nth 0 (bias_grid_energy (after_calls [1; 2; 3])) 0)) /\
  _find_nearest (bin_centers (after_calls [1; 2; 3])) (Scalar 25) =
    Ok (Scalar (Z.to_nat 4 - 1)%nat) /\
  ene (after_calls [1; 2; 3]) (Scalar 25) =
    Ok (Scalar (V harmonic 25 +
                nth (Z.to_nat 4 - 1) (bias_grid_energy (after_calls [1; 2; 3])) 0)).
Proof.
  assert (Hrun : run bump fresh4 [1; 2; 3] = Ok (after_calls [1; 2; 3]))
    by (vm_compute; reflexivity).
  split; [reflexivity|]. split; [exact Hrun|].
  split; [discriminate|]. split; [discriminate|]. split; [reflexivity|].
  apply (out_of_range_clamp bump harmonic (1 # 10) (1 # 10) 3 0 10 4 fresh4
           (after_calls [1; 2; 3]) [1; 2; 3] (- 1000) 25);
    [reflexivity|exact Hrun|discriminate|discriminate|reflexivity].
Defined.

Lemma deposition_additive_witness :
  well_formed fresh4 /\ Permutation [3; 6; 9] [9; 3; 6] /\
  exists after after',
    deposit_all bump fresh4 [3; 6; 9] = Ok after /\
    deposit_all bump fresh4 [9; 3; 6] = Ok after' /\
    length (bias_grid_energy after) = length (bin_centers fresh4) /\
    length (bias_grid_force after) = length (bin_centers fresh4) /\
    forall i, (i < length (bin_centers fresh4))%nat ->
      nth i (bias_grid_energy after) 0 ==
        nth i (bias_grid_energy fresh4) 0 +
        Qsum (map (kernel_at bump fresh4 i) [3; 6; 9]) /\
      nth i (bias_grid_force after) 0 ==
        nth i (bias_grid_force fresh4) 0 +
        Qsum (map (kernel_force_at bump fresh4 i) [3; 6; 9]) /\
      nth i (bias_grid_energy after') 0 == nth i (bias_grid_energy after) 0 /\
      nth i (bias_grid_force after') 0 == nth i (bias_grid_force after) 0.
Proof.
  assert (Hwf : well_formed fresh4)
    by (exact (init_well_formed _ _ _ _ _ _ _ _ fresh4_constructed)).
  assert (Hp : Permutation [3; 6; 9] [9; 3; 6]).
  { apply Permutation_sym. apply (Permutation_cons_app [3; 6] [] 9).
    apply Permutation_refl. }
  split; [exact Hwf|]. split; [exact Hp|].
  exact (deposition_additive bump fresh4 [3; 6; 9] [9; 3; 6] Hwf Hp).
Defined.

Lemma counter_range_invariant_witness :
  __init__ harmonic (1 # 10) (1 # 10) 3 0 10 4 = Ok fresh4 /\ (1 <= 3)%Z /\
  run bump fresh4 [1; 2] = Ok (after_calls [1; 2]) /\
  current_n fresh4 = 1%Z /\
  (1 <= current_n (after_calls [1; 2]%Q) <= 3)%Z /\
  exists self',
    check_for_metastep bump (after_calls [1; 2]) 3 = Ok self' /\
    (1 <= current_n self' <= 3)%Z /\
    ((fires bump (after_calls [1; 2]) 3 self' /\ current_n self' = 1%Z) \/
     (idles (after_calls [1; 2]) self' /\
      current_n self' = (current_n (after_calls [1; 2]%Q) + 1)%Z)) /\
    (fires bump (after_calls [1; 2]) 3 self' <-> current_n self' = 1%Z).
Proof.
  assert (Hrun : run bump fresh4 [1; 2] = Ok (after_calls [1; 2]))
    by (vm_compute; reflexivity).
  split; [reflexivity|]. split; [lia|]. split; [exact Hrun|].
  apply (counter_range_invariant bump harmonic (1 # 10) (1 # 10) 3 0 10 4 fresh4
           (after_calls [1; 2]) [1; 2] 3); [reflexivity|lia|exact Hrun].
Defined.

Lemma set_current_state_velocity_is_force_witness :
  (forall s,
     PerturbedSystem._currentVelocities Q (example_update_energies s) =
       PerturbedSystem._currentVelocities Q s /\
     PerturbedSystem._currentForce Q (example_update_energies s) =
       PerturbedSystem._currentForce Q s) /\
  let after :=
    PerturbedSystem.set_current_state Q example_update_energies (fun r => 2 * r)
      example_system 1 7 3 298 0 0 in
  PerturbedSystem._currentVelocities Q after = 3 /\
  PerturbedSystem._currentForce Q after = 3 /\
  option_map (PerturbedSystem.velocity Q) (PerturbedSystem._currentState Q after) = Some 3 /\
  PerturbedSystem.set_current_state Q example_update_energies (fun r => 2 * r)
    example_system 1 9 3 298 0 0 = after.
Proof.
  assert (H : forall s,
     PerturbedSystem._currentVelocities Q (example_update_energies s) =
       PerturbedSystem._currentVelocities Q s /\
     PerturbedSystem._currentForce Q (example_update_energies s) =
       PerturbedSystem._currentForce Q s)
    by (intros s; split; reflexivity).
  split; [exact H|].
  exact (set_current_state_velocity_is_force Q example_update_energies
           (fun r => 2 * r) example_system 1 7 9 3 298 0 0 H).
Defined.

(** ** Further properties *)

(** * The bins of a constructed grid *)

Lemma inject_Z_succ (i : nat) :
  inject_Z (Z.of_nat (S i)) == inject_Z (Z.of_nat i) + 1.
Proof.
  replace (Z.of_nat (S i)) with (Z.of_nat i + 1)%Z by lia.
  rewrite inject_Z_plus. reflexivity.
Qed.

Lemma linspace_entry (start stop : Q) (num : Z) (l : list Q) (i : nat) :
  linspace start stop num = Ok l -> (2 <= num)%Z -> (i < Z.to_nat num)%nat ->
  nth i l 0 ==
    start + inject_Z (Z.of_nat i) * ((stop - start) / (inject_Z num - 1)).
Proof.
  unfold linspace.
  destruct (num <? 0)%Z eqn:Hneg; [discriminate|].
  destruct (Z.to_nat num) as [|[|k]] eqn:Hn; intros H Hnum Hi;
    apply Ok_inj in H; subst l; [lia|lia|].
  cbv zeta.
  assert (HN : inject_Z (num - 1) == inject_Z num - 1).
  { unfold Zminus. rewrite inject_Z_plus. reflexivity. }
  assert (HNk : inject_Z num - 1 == inject_Z (Z.of_nat (S k))).
  { rewrite <- HN. apply inject_Z_injective. lia. }
  assert (HNpos : 0 < inject_Z num - 1).
  { rewrite HNk. change 0 with (inject_Z 0). rewrite <- Zlt_Qlt. lia. }
  set (f := fun j : nat =>
              start + inject_Z (Z.of_nat j) * ((stop - start) / inject_Z (num - 1))).
  destruct (Nat.lt_ge_cases i (S k)) as [Hlt|Hge].
  - rewrite app_nth1 by (rewrite length_map, length_seq; exact Hlt).
    rewrite (nth_indep (map f (seq 0 (S k))) 0 (f 0%nat))
      by (rewrite length_map, length_seq; exact Hlt).
    rewrite (map_nth f), seq_nth by exact Hlt. cbn [Nat.add]. unfold f.
    rewrite HN. reflexivity.
  - assert (i = S k) by lia. subst i.
    rewrite app_nth2 by (rewrite length_map, length_seq; lia).
    rewrite length_map, length_seq, Nat.sub_diag. cbn [nth].
    rewrite <- HNk. field. lra.
Qed.

(** The center of bin [i] is [lo + w * (i + 1/2)] with [w] the bin width. *)
Lemma init_center_formula (orig : potential1D) (A sg : Q) (n : Z) (lo hi : Q)
    (nb : Z) (self : metadynamicsPotential) (i : nat) :
  __init__ orig A sg n lo hi nb = Ok self -> (i < Z.to_nat nb)%nat ->
  nth i (bin_centers self) 0 ==
    lo + bin_width lo hi nb * (inject_Z (Z.of_nat i) + (1 # 2)).
Proof.
  intros H Hi. pose proof (init_ok_bins _ _ _ _ _ _ _ _ H) as Hnb.
  destruct (init_positive orig A sg n lo hi nb Hnb) as (c & Hc & Hlen & E).
  rewrite E in H. apply Ok_inj in H. subst self. cbn [bin_centers].
  unfold bin_width.
  assert (Hpos : 1 <= inject_Z nb).
  { change 1 with (inject_Z 1). rewrite <- Zle_Qle. exact Hnb. }
  destruct (Z.eq_dec nb 1) as [->|Hne].
  - cbn in Hc. apply Ok_inj in Hc. subst c.
    assert (i = 0)%nat by (cbn in Hi; lia). subst i. cbn [nth].
    change (inject_Z (Z.of_nat 0)) with 0. change (inject_Z 1) with 1. field.
  - assert (H2 : (2 <= nb)%Z) by lia.
    rewrite (linspace_entry _ _ _ _ i Hc H2 Hi).
    assert (2 <= inject_Z nb).
    { change 2 with (inject_Z 2). rewrite <- Zle_Qle. exact H2. }
    field. split; lra.
Qed.

(** On an array of evenly spaced centers [lo + w * (j + 1/2)], a value of
    bin [i], that is of [[lo + w * i, lo + w * (i + 1))], is looked up at
    subscript [i]. *)
Lemma uniform_grid_lookup (a : list Q) (lo w x : Q) (i : nat) :
  strictly_increasing a = true -> 0 < w ->
  (forall j, (j < length a)%nat ->
     nth j a 0 == lo + w * (inject_Z (Z.of_nat j) + (1 # 2))) ->
  (i < length a)%nat ->
  lo + w * inject_Z (Z.of_nat i) <= x ->
  x < lo + w * (inject_Z (Z.of_nat i) + 1) ->
  nearest_index a x = i.
Proof.
  intros Hs Hw Hc Hi Hlo Hhi.
  pose proof (strictly_increasing_sorted a Hs) as Hmono.
  pose proof (Hc i Hi) as Ci.
  assert (Hprev : forall j, (j < i)%nat -> nth j a 0 < x).
  { intros j Hj. apply Qle_lt_trans with (nth (pred i) a 0); [apply Hmono; lia|].
    rewrite (Hc (pred i)) by lia.
    destruct i as [|i']; [lia|]. cbn [pred]. rewrite inject_Z_succ in Hlo. lra. }
  assert (Hnext : (S i < length a)%nat -> x < nth (S i) a 0).
  { intros HS. rewrite (Hc (S i) HS), inject_Z_succ. lra. }
  unfold nearest_index.
  destruct (Qlt_le_dec (nth i a 0) x) as [Hgt|Hle].
  - (* past the center of bin [i]: the search stops at [i + 1] *)
    assert (Hidx : searchsorted_left a x = S i).
    { rewrite (searchsorted_leading_below a x Hmono).
      apply leading_below_unique; [lia| |].
      - intros j Hj. destruct (Nat.eq_dec j i) as [->|Hne]; [exact Hgt|].
        apply Hprev. lia.
      - intros HS. apply Qlt_le_weak. apply Hnext. exact HS. }
    rewrite Hidx. cbn [pred Nat.ltb Nat.leb andb].
    destruct (S i =? length a)%nat eqn:E; cbn [orb]; [reflexivity|].
    apply Nat.eqb_neq in E.
    assert (HS : (S i < length a)%nat) by lia.
    pose proof (Hc (S i) HS) as Cn. rewrite inject_Z_succ in Cn.
    replace (Qltb _ _) with true; [reflexivity|].
    symmetry. apply Qltb_lt. split_abs; lra.
  - (* at or before the center of bin [i]: the search stops at [i] *)
    assert (Hidx : searchsorted_left a x = i).
    { rewrite (searchsorted_leading_below a x Hmono).
      apply leading_below_unique; [lia|exact Hprev|]. intros _. exact Hle. }
    rewrite Hidx.
    destruct i as [|i']; [reflexivity|].
    cbn [pred Nat.ltb Nat.leb andb].
    replace (S i' =? length a)%nat with false by (symmetry; apply Nat.eqb_neq; lia).
    cbn [orb].
    pose proof (Hc i' ltac:(lia)) as Cp. rewrite inject_Z_succ in Ci, Hlo.
    replace (Qltb _ _) with false; [reflexivity|].
    symmetry. apply Qltb_ge. split_abs; lra.
Qed.

Lemma bin_width_pos (lo hi : Q) (nb : Z) :
  lo < hi -> (1 <= nb)%Z -> 0 < bin_width lo hi nb.
Proof.
  intros Hlt Hnb. unfold bin_width.
  assert (1 <= inject_Z nb).
  { change 1 with (inject_Z 1). rewrite <- Zle_Qle. exact Hnb. }
  apply Qlt_shift_div_l; lra.
Qed.

(** X1: on a constructed grid, and after any number of steps, there are
    [numbins] bin centers and the center of bin [i] is
    [lo + w * (i + 1/2)], with [w = (hi - lo) / numbins] the bin width. *)
Theorem bin_centers_closed_form (gaussPotential : Q -> Q -> Q -> potential1D)
    (orig : potential1D) (A sg : Q) (n : Z) (lo hi : Q) (nb : Z)
    (self0 self : metadynamicsPotential) (xs : list Q) (i : nat) :
  __init__ orig A sg n lo hi nb = Ok self0 ->
  run gaussPotential self0 xs = Ok self ->
  (i < Z.to_nat nb)%nat ->
  length (bin_centers self) = Z.to_nat nb /\
  nth i (bin_centers self) 0 ==
    lo + bin_width lo hi nb * (inject_Z (Z.of_nat i) + (1 # 2)).
Proof.
  intros Hinit Hrun Hi.
  destruct (run_frame _ _ _ _ Hrun) as (_ & _ & _ & _ & Ec). rewrite Ec.
  split; [|eapply init_center_formula; eassumption].
  pose proof (init_ok_bins _ _ _ _ _ _ _ _ Hinit) as Hnb.
  destruct (init_positive orig A sg n lo hi nb Hnb) as (c & _ & Hl & E).
  rewrite E in Hinit. apply Ok_inj in Hinit. subst self0. exact Hl.
Qed.

(** X2: constructed over [lo < hi], the bin centers are strictly
    increasing and every one lies strictly between [lo] and [hi]. *)
Theorem bin_centers_increasing_inside (orig : potential1D) (A sg : Q) (n : Z)
    (lo hi : Q) (nb : Z) (self : metadynamicsPotential) :
  __init__ orig A sg n lo hi nb = Ok self -> lo < hi ->
  strictly_increasing (bin_centers self) = true /\
  Forall (fun c => lo < c /\ c < hi) (bin_centers self).
Proof.
  intros Hinit Hlt.
  split; [eapply init_centers_increasing; eassumption|].
  destruct (init_centers_bounds _ _ _ _ _ _ _ _ Hinit (Qlt_le_weak _ _ Hlt))
    as (Hc & _ & Hh).
  specialize (Hh Hlt).
  eapply Forall_impl; [|exact Hc]. cbn. intros c [H1 H2]. split; lra.
Qed.


(** * More of the read path *)

(** X4: in every reachable state [force] on a scalar returns the
    derivative of the unbiased potential plus the entry of
    [bias_grid_force] at the subscript [_find_nearest] returns, the same
    subscript at which [ene] reads [bias_grid_energy]. *)
Theorem force_sum_decomposition (gaussPotential : Q -> Q -> Q -> potential1D)
    (self : metadynamicsPotential) (x : Q) :
  reachable gaussPotential self ->
  exists i e f,
    _find_nearest (bin_centers self) (Scalar x) = Ok (Scalar i) /\
    getitem1 (bias_grid_energy self) i = Ok e /\
    getitem1 (bias_grid_force self) i = Ok f /\
    ene self (Scalar x) = Ok (Scalar (V (origPotential self) x + e)) /\
    force self (Scalar x) = Ok (Scalar (dVdpos (origPotential self) x + f)).
Proof.
  intros Hr. apply reachable_well_formed in Hr.
  pose proof Hr as (Hne & He & Hf).
  pose proof (nearest_index_lt (bin_centers self) x Hne) as Hlt.
  exists (nearest_index (bin_centers self) x),
         (nth (nearest_index (bin_centers self) x) (bias_grid_energy self) 0),
         (nth (nearest_index (bin_centers self) x) (bias_grid_force self) 0).
  split; [apply find_nearest_scalar|].
  split; [apply getitem1_nth; lia|].
  split; [apply getitem1_nth; lia|].
  split; [apply ene_scalar; exact Hr|apply force_scalar; exact Hr].
Qed.

(** X5: in every state, [force] on a sequence of two or more positions
    raises ValueError: [_find_nearest] asks for the truth value of an array
    of subscripts. *)
Theorem force_rejects_sequences (self : metadynamicsPotential) (x x' : Q)
    (xs : list Q) :
  _find_nearest (bin_centers self) (Array (x :: x' :: xs)) = Raise ValueError /\
  force self (Array (x :: x' :: xs)) = Raise ValueError.
Proof. split; reflexivity. Qed.

Lemma find_nearest_singleton (a : list Q) (v : Q) :
  _find_nearest a (Array [v]) = Ok (Array [nearest_index a v]).
Proof.
  unfold _find_nearest, nearest_index.
  cbn [searchsorted nd_map map truth bind].
  pose proof (searchsorted_le_length a v) as Hle.
  set (idx := searchsorted_left a v) in *.
  destruct (0 <? idx)%nat eqn:E0; cbn [andb]; [|reflexivity].
  destruct (idx =? length a)%nat eqn:E1; cbn [orb]; [reflexivity|].
  apply Nat.ltb_lt in E0. apply Nat.eqb_neq in E1.
  cbn [getitem mapM bind].
  rewrite getitem1_nth with (d := 0%Q) by lia. cbn [bind].
  rewrite getitem1_nth with (d := 0%Q) by lia.
  cbn [bind broadcast2 zip_with_broadcast map truth].
  destruct (Qltb _ _); reflexivity.
Qed.

(** X6: in every reachable state, [force] and [ene] on a sequence of one
    position return what they return on that position as a scalar. *)
Theorem force_singleton (gaussPotential : Q -> Q -> Q -> potential1D)
    (self : metadynamicsPotential) (x : Q) :
  reachable gaussPotential self ->
  _find_nearest (bin_centers self) (Array [x]) =
    Ok (Array [nearest_index (bin_centers self) x]) /\
  force self (Array [x]) = force self (Scalar x) /\
  ene self (Array [x]) = ene self (Scalar x) /\
  exists f, force self (Array [x]) = Ok (Scalar f).
Proof.
  intros Hr. apply reachable_well_formed in Hr.
  pose proof Hr as (Hne & He & Hf).
  pose proof (nearest_index_lt (bin_centers self) x Hne) as Hlt.
  assert (E : force self (Array [x]) =
              Ok (Scalar (dVdpos (origPotential self) x +
                          nth (nearest_index (bin_centers self) x)
                              (bias_grid_force self) 0))).
  { unfold force. rewrite find_nearest_singleton. cbn [bind getitem mapM].
    rewrite getitem1_nth with (d := 0%Q) by lia. reflexivity. }
  split; [apply find_nearest_singleton|].
  split; [rewrite E, (force_scalar self x Hr); reflexivity|].
  split; [rewrite (ene_array self [x] Hr), (ene_scalar self x Hr); reflexivity|].
  eexists. exact E.
Qed.

(** X7: in every reachable state, [ene] on a sequence of two or more
    positions returns a sequence of the same length whose entry [i] is the
    value [ene] returns for position [i] alone. *)
Theorem ene_sequence_elementwise (gaussPotential : Q -> Q -> Q -> potential1D)
    (self : metadynamicsPotential) (x x' : Q) (xs : list Q) :
  reachable gaussPotential self ->
  exists es,
    ene self (Array (x :: x' :: xs)) = Ok (Array es) /\
    length es = length (x :: x' :: xs) /\
    forall i, (i < length (x :: x' :: xs))%nat ->
      ene self (Scalar (nth i (x :: x' :: xs) 0)) = Ok (Scalar (nth i es 0)).
Proof.
  intros Hr. apply reachable_well_formed in Hr.
  set (f := fun y => V (origPotential self) y +
                     nth (nearest_index (bin_centers self) y) (bias_grid_energy self) 0).
  exists (map f (x :: x' :: xs)).
  split; [rewrite (ene_array self _ Hr); reflexivity|].
  split; [apply length_map|].
  intros i Hi. rewrite (ene_scalar self _ Hr).
  rewrite (nth_indep (map f (x :: x' :: xs)) 0 (f 0)) by (rewrite length_map; exact Hi).
  rewrite (map_nth f). reflexivity.
Qed.

(** * More of the write path *)

Lemma Qsum_snoc (l : list Q) (x : Q) : Qsum (l ++ [x]) == Qsum l + x.
Proof.
  unfold Qsum. induction l as [|y l IH]; cbn [app fold_right]; [ring|].
  rewrite IH. ring.
Qed.

Lemma every_nth_from_snoc (n : Z) (xs : list Q) (x : Q) :
  forall ordinal,
  every_nth_from ordinal n (xs ++ [x]) =
  every_nth_from ordinal n xs ++
  (if ((ordinal + Z.of_nat (length xs)) mod n =? 0)%Z then [x] else []).
Proof.
  induction xs as [|y xs IH]; intros ordinal; cbn [app every_nth_from length].
  - replace (ordinal + Z.of_nat 0)%Z with ordinal by lia.
    destruct (ordinal mod n =? 0)%Z; reflexivity.
  - rewrite IH.
    replace (ordinal + 1 + Z.of_nat (length xs))%Z
      with (ordinal + Z.of_nat (S (length xs)))%Z by lia.
    destruct (ordinal mod n =? 0)%Z; reflexivity.
Qed.

Lemma every_nth_snoc (n : Z) (xs : list Q) (x : Q) :
  every_nth n (xs ++ [x]) =
  every_nth n xs ++
  (if ((Z.of_nat (length xs) + 1) mod n =? 0)%Z then [x] else []).
Proof.
  unfold every_nth. rewrite every_nth_from_snoc.
  replace (1 + Z.of_nat (length xs))%Z with (Z.of_nat (length xs) + 1)%Z by lia.
  reflexivity.
Qed.

Lemma mod_abs_guard (c n : Z) :
  n <> 0%Z -> (c mod n =? 0)%Z = (c mod Z.abs n =? 0)%Z.
Proof.
  intros Hn.
  destruct (c mod n =? 0)%Z eqn:E1; destruct (c mod Z.abs n =? 0)%Z eqn:E2;
    try reflexivity; exfalso.
  - apply Z.eqb_eq in E1. apply Z.eqb_neq in E2. apply E2.
    apply Z.mod_divide; [lia|]. apply Z.divide_abs_l.
    apply Z.mod_divide; assumption.
  - apply Z.eqb_neq in E1. apply Z.eqb_eq in E2. apply E1.
    apply Z.mod_divide; [exact Hn|]. apply Z.divide_abs_l.
    apply Z.mod_divide; [lia|exact E2].
Qed.

Lemma set_counters_idem (self : metadynamicsPotential) (a b c d : Z) :
  set_counters (set_counters self a b) c d = set_counters self c d.
Proof. reflexivity. Qed.

Lemma set_counters_same (self : metadynamicsPotential) :
  set_counters self (current_n self) (finished_steps self) = self.
Proof. destruct self; reflexivity. Qed.

Section WritePath.

Variable gaussPotential : Q -> Q -> Q -> potential1D.

Local Open Scope Z_scope.

Lemma kernel_at_configuration (self self' : metadynamicsPotential) (i : nat) (mu : Q) :
  same_configuration self self' ->
  kernel_at gaussPotential self' i mu = kernel_at gaussPotential self i mu /\
  kernel_force_at gaussPotential self' i mu = kernel_force_at gaussPotential self i mu.
Proof.
  intros (_ & _ & Ea & Es & Ec). unfold kernel_at, kernel_force_at.
  rewrite Ea, Es, Ec. split; reflexivity.
Qed.

(** One call after [k] calls, for a trigger interval that is not zero. *)
Lemma step_outcome_abs (self : metadynamicsPotential) (x : Q) (k : Z) :
  well_formed self -> n_trigger self <> 0 ->
  current_n self = 1 + k mod Z.abs (n_trigger self) ->
  exists self', check_for_metastep gaussPotential self x = Ok self' /\
    if (k + 1) mod Z.abs (n_trigger self) =? 0
    then fires gaussPotential self x self'
    else idles self self'.
Proof.
  intros Hwf Hn Hc. unfold check_for_metastep, py_mod.
  replace (n_trigger self =? 0) with false by (symmetry; apply Z.eqb_neq; exact Hn).
  cbn [bind]. rewrite (mod_abs_guard _ _ Hn), Hc, counter_guard by lia.
  destruct ((k + 1) mod Z.abs (n_trigger self) =? 0) eqn:E.
  - rewrite (update_potential_ok gaussPotential self x Hwf). cbn [bind].
    eexists. split; [reflexivity|].
    unfold fires. eexists. split; [apply update_potential_ok; exact Hwf|].
    reflexivity.
  - eexists. split; [reflexivity|]. unfold idles. rewrite Hc. reflexivity.
Qed.

(** The state after any number of calls on a fresh object. *)
Lemma run_summary (orig : potential1D) (A sg : Q) (n : Z) (lo hi : Q) (nb : Z)
    (self0 : metadynamicsPotential) :
  __init__ orig A sg n lo hi nb = Ok self0 -> n <> 0 ->
  forall xs, exists self,
    run gaussPotential self0 xs = Ok self /\
    well_formed self /\
    same_configuration self0 self /\
    current_n self = 1 + Z.of_nat (length xs) mod Z.abs n /\
    finished_steps self = Z.of_nat (length xs) / Z.abs n /\
    finished_steps self = Z.of_nat (length (every_nth n xs)) /\
    forall i, (i < length (bin_centers self0))%nat ->
      (nth i (bias_grid_energy self) 0 ==
         Qsum (map (kernel_at gaussPotential self0 i) (every_nth n xs)))%Q /\
      (nth i (bias_grid_force self) 0 ==
         Qsum (map (kernel_force_at gaussPotential self0 i) (every_nth n xs)))%Q.
Proof.
  intros Hinit Hn.
  pose proof (init_well_formed _ _ _ _ _ _ _ _ Hinit) as Hwf0.
  pose proof (init_ok_bins _ _ _ _ _ _ _ _ Hinit) as Hnb.
  destruct (init_positive orig A sg n lo hi nb Hnb) as (c & _ & Hlen & E).
  rewrite E in Hinit. apply Ok_inj in Hinit.
  assert (Hn0 : n_trigger self0 = n) by (subst self0; reflexivity).
  assert (Hpos : 0 < Z.abs n) by lia.
  induction xs as [|x xs IH] using rev_ind.
  - exists self0. split; [reflexivity|]. split; [exact Hwf0|].
    split; [unfold same_configuration; auto 10|].
    subst self0. cbn [n_trigger current_n finished_steps length Z.of_nat
                      every_nth every_nth_from map bias_grid_energy
                      bias_grid_force bin_centers].
    rewrite Zmod_0_l, Zdiv_0_l. repeat split; try reflexivity.
    + rewrite nth_repeat. reflexivity.
    + rewrite nth_repeat. reflexivity.
  - destruct IH as (self & Hrun & Hwf & Hcfg & Hcur & Hfin & Hcount & Hsum).
    pose proof Hcfg as (_ & Hnt & _ & _ & Hcen).
    assert (Hne : n_trigger self <> 0) by (rewrite Hnt, Hn0; exact Hn).
    assert (Hcur' : current_n self = 1 + Z.of_nat (length xs) mod Z.abs (n_trigger self))
      by (rewrite Hnt, Hn0; exact Hcur).
    destruct (step_outcome_abs self x (Z.of_nat (length xs)) Hwf Hne Hcur')
      as (self' & Hstep & Hout).
    rewrite Hnt, Hn0 in Hout.
    exists self'. rewrite run_app, Hrun. cbn [bind run]. rewrite Hstep. cbn [bind].
    split; [reflexivity|].
    split; [eapply check_for_metastep_well_formed; eassumption|].
    pose proof (check_for_metastep_frame _ _ _ _ Hstep) as Hcfg'.
    assert (Hcfg0 : same_configuration self0 self').
    { destruct Hcfg as (C1 & C2 & C3 & C4 & C5), Hcfg' as (D1 & D2 & D3 & D4 & D5).
      unfold same_configuration. repeat split; congruence. }
    split; [exact Hcfg0|].
    rewrite every_nth_snoc, length_app. cbn [length].
    replace (Z.of_nat (length xs + 1)) with (Z.of_nat (length xs) + 1) by lia.
    rewrite (mod_abs_guard _ n Hn).
    destruct ((Z.of_nat (length xs) + 1) mod Z.abs n =? 0) eqn:Eg.
    + apply Z.eqb_eq in Eg.
      destruct (succ_mod_zero _ _ Hpos Eg) as [_ Hd].
      destruct Hout as (d & Hd' & ->).
      cbn [current_n finished_steps set_counters bias_grid_energy bias_grid_force].
      rewrite Eg, Hd, Hfin. split; [reflexivity|]. split; [reflexivity|].
      split.
      { rewrite length_app. cbn [length]. rewrite <- Hfin, Hcount. lia. }
      intros i Hi.
      destruct (update_potential_entry gaussPotential self d x i Hwf Hd') as [Ee Ef];
        [rewrite Hcen; exact Hi|].
      destruct (Hsum i Hi) as [Se Sf].
      destruct (kernel_at_configuration self0 self i x Hcfg) as [Ke Kf].
      rewrite Ee, Ef, Se, Sf, Ke, Kf, !map_app. cbn [map].
      rewrite !Qsum_snoc. split; reflexivity.
    + apply Z.eqb_neq in Eg.
      destruct (succ_mod_nonzero _ _ Hpos Eg) as [Hm Hd].
      unfold idles in Hout. subst self'.
      cbn [current_n finished_steps set_counters bias_grid_energy bias_grid_force].
      rewrite Hm, Hd, Hcur, Hfin, app_nil_r.
      split; [lia|]. split; [reflexivity|].
      split; [rewrite <- Hfin; exact Hcount|exact Hsum].
Qed.

Lemma check_for_metastep_finished (self self' : metadynamicsPotential) (x : Q) :
  check_for_metastep gaussPotential self x = Ok self' ->
  finished_steps self <= finished_steps self' <= finished_steps self + 1.
Proof.
  unfold check_for_metastep.
  destruct (py_mod (current_n self) (n_trigger self)) as [r|]; [|discriminate].
  cbn [bind]. destruct (r =? 0).
  - destruct (_update_potential gaussPotential self x) as [d|] eqn:E; [|discriminate].
    cbn [bind]. intros H. apply Ok_inj in H. subst self'.
    apply update_potential_frame in E. destruct E as (_ & _ & E).
    cbn [finished_steps set_counters]. lia.
  - intros H. apply Ok_inj in H. subst self'. cbn [finished_steps set_counters]. lia.
Qed.

(** While the counter stays below the trigger interval, a run only
    counts. *)
Lemma run_idle (xs : list Q) :
  forall self,
  1 <= current_n self ->
  current_n self + Z.of_nat (length xs) <= n_trigger self ->
  run gaussPotential self xs =
    Ok (set_counters self (current_n self + Z.of_nat (length xs)) (finished_steps self)).
Proof.
  induction xs as [|x xs IH]; intros self Hc Hn; cbn [run length] in *.
  - replace (current_n self + Z.of_nat 0) with (current_n self) by lia.
    rewrite set_counters_same. reflexivity.
  - assert (Hlen : Z.of_nat (S (length xs)) = 1 + Z.of_nat (length xs)) by lia.
    rewrite Hlen in *.
    unfold check_for_metastep, py_mod.
    replace (n_trigger self =? 0) with false by (symmetry; apply Z.eqb_neq; lia).
    cbn [bind]. rewrite Z.mod_small by lia.
    replace (current_n self =? 0) with false by (symmetry; apply Z.eqb_neq; lia).
    cbn [bind]. rewrite IH.
    + rewrite set_counters_idem. cbn [current_n finished_steps set_counters].
      f_equal. f_equal. lia.
    + cbn [current_n set_counters]. lia.
    + cbn [current_n n_trigger set_counters]. lia.
Qed.

End WritePath.

(** X8: during the first [n_trigger - 1] calls of [check_for_metastep]
    nothing is deposited: the object is the constructed one but for
    [current_n], and [ene] and [force] return the unbiased energy and
    derivative plus a zero bias. *)
Theorem unbiased_before_first_deposit (gaussPotential : Q -> Q -> Q -> potential1D)
    (orig : potential1D) (A sg : Q) (n : Z) (lo hi : Q) (nb : Z)
    (self0 : metadynamicsPotential) (xs : list Q) (x : Q) :
  __init__ orig A sg n lo hi nb = Ok self0 ->
  (Z.of_nat (length xs) < n)%Z ->
  exists self,
    run gaussPotential self0 xs = Ok self /\
    self = set_counters self0 (1 + Z.of_nat (length xs)) 0 /\
    ene self (Scalar x) = Ok (Scalar (V orig x + 0)) /\
    force self (Scalar x) = Ok (Scalar (dVdpos orig x + 0)).
Proof.
  intros Hinit Hlen.
  pose proof (init_well_formed _ _ _ _ _ _ _ _ Hinit) as Hwf0.
  pose proof (init_ok_bins _ _ _ _ _ _ _ _ Hinit) as Hnb.
  destruct (init_positive orig A sg n lo hi nb Hnb) as (c & _ & _ & E).
  rewrite E in Hinit. apply Ok_inj in Hinit.
  assert (Hrun : run gaussPotential self0 xs =
                 Ok (set_counters self0 (1 + Z.of_nat (length xs)) 0)).
  { pose proof (run_idle gaussPotential xs self0) as H. subst self0.
    cbn [current_n n_trigger finished_steps] in H. apply H; lia. }
  eexists. split; [exact Hrun|]. split; [reflexivity|].
  assert (Hwf : well_formed (set_counters self0 (1 + Z.of_nat (length xs)) 0))
    by exact Hwf0.
  rewrite (ene_scalar _ x Hwf), (force_scalar _ x Hwf).
  subst self0. cbn [set_counters origPotential bias_grid_energy bias_grid_force bin_centers].
  rewrite !nth_repeat. split; reflexivity.
Qed.

(** X9: calls of [check_for_metastep] never change the unbiased
    potential, [n_trigger], [amplitude], [sigma] or the bin centers; both
    grids keep the length of [bin_centers]; [finished_steps] never
    decreases and grows by at most one per call. *)
Theorem run_keeps_configuration (gaussPotential : Q -> Q -> Q -> potential1D)
    (self self' : metadynamicsPotential) (xs : list Q) :
  reachable gaussPotential self ->
  run gaussPotential self xs = Ok self' ->
  same_configuration self self' /\
  length (bias_grid_energy self') = length (bin_centers self) /\
  length (bias_grid_force self') = length (bin_centers self) /\
  (finished_steps self <= finished_steps self' <=
     finished_steps self + Z.of_nat (length xs))%Z.
Proof.
  intros Hr Hrun.
  pose proof (run_frame _ _ _ _ Hrun) as Hcfg.
  pose proof (reachable_well_formed gaussPotential self'
                (run_reachable gaussPotential self xs self' Hr Hrun)) as (_ & He & Hf).
  destruct Hcfg as (C1 & C2 & C3 & C4 & C5).
  split; [unfold same_configuration; auto 10|].
  split; [congruence|]. split; [congruence|].
  clear Hr He Hf C1 C2 C3 C4 C5.
  revert self Hrun. induction xs as [|x xs IH]; intros self Hrun; cbn [run length] in *.
  - apply Ok_inj in Hrun. subst self'. lia.
  - destruct (check_for_metastep gaussPotential self x) as [s|] eqn:E; [|discriminate].
    cbn [bind] in Hrun. specialize (IH s Hrun).
    pose proof (check_for_metastep_finished gaussPotential _ _ _ E). lia.
Qed.

(** X10: for every trigger interval other than zero, negative ones
    included, the schedule is that of its absolute value: [current_n]
    stays in [[1, |n|]], the call after [k] calls fires exactly when
    [k + 1] is a multiple of [|n|], and [finished_steps] is [k / |n|]. *)
Theorem schedule_of_absolute_interval (gaussPotential : Q -> Q -> Q -> potential1D)
    (orig : potential1D) (A sg : Q) (n : Z) (lo hi : Q) (nb : Z)
    (self0 : metadynamicsPotential) (xs : list Q) (x : Q) :
  __init__ orig A sg n lo hi nb = Ok self0 -> n <> 0%Z ->
  exists self self',
    run gaussPotential self0 xs = Ok self /\
    (1 <= current_n self <= Z.abs n)%Z /\
    finished_steps self = (Z.of_nat (length xs) / Z.abs n)%Z /\
    check_for_metastep gaussPotential self x = Ok self' /\
    (if ((Z.of_nat (length xs) + 1) mod Z.abs n =? 0)%Z
     then fires gaussPotential self x self'
     else idles self self').
Proof.
  intros Hinit Hn.
  destruct (run_summary gaussPotential _ _ _ _ _ _ _ _ Hinit Hn xs)
    as (self & Hrun & Hwf & (_ & Hnt & _) & Hcur & Hfin & _).
  assert (Hn0 : n_trigger self = n).
  { rewrite Hnt. pose proof (init_ok_bins _ _ _ _ _ _ _ _ Hinit) as Hnb.
    destruct (init_positive orig A sg n lo hi nb Hnb) as (c & _ & _ & E).
    rewrite E in Hinit. apply Ok_inj in Hinit. subst self0. reflexivity. }
  assert (Hne : n_trigger self <> 0%Z) by (rewrite Hn0; exact Hn).
  assert (Hcur' : current_n self =
                  (1 + Z.of_nat (length xs) mod Z.abs (n_trigger self))%Z)
    by (rewrite Hn0; exact Hcur).
  destruct (step_outcome_abs gaussPotential self x (Z.of_nat (length xs)) Hwf Hne Hcur')
    as (self' & Hstep & Hout).
  rewrite Hn0 in Hout.
  exists self, self'.
  pose proof (Z.mod_pos_bound (Z.of_nat (length xs)) (Z.abs n) ltac:(lia)).
  split; [exact Hrun|]. split; [lia|]. auto.
Qed.

(** X11: an object constructed with [n_trigger = 0] raises
    ZeroDivisionError at its first call of [check_for_metastep], whatever
    the position, so a run of one or more steps raises. *)
Theorem zero_interval_raises (gaussPotential : Q -> Q -> Q -> potential1D)
    (orig : potential1D) (A sg : Q) (lo hi : Q) (nb : Z)
    (self0 : metadynamicsPotential) (x : Q) (xs : list Q) :
  __init__ orig A sg 0 lo hi nb = Ok self0 ->
  check_for_metastep gaussPotential self0 x = Raise ZeroDivisionError /\
  run gaussPotential self0 (x :: xs) = Raise ZeroDivisionError.
Proof.
  intros Hinit. pose proof (init_ok_bins _ _ _ _ _ _ _ _ Hinit) as Hnb.
  destruct (init_positive orig A sg 0 lo hi nb Hnb) as (c & _ & _ & E).
  rewrite E in Hinit. apply Ok_inj in Hinit. subst self0.
  split; reflexivity.
Qed.

(** X12: after a run on a fresh object, every entry of
    [bias_grid_energy] is the sum, over the positions visited at every
    [n_trigger]-th step, of the kernel centered there, evaluated at the
    center of the bin; [bias_grid_force] likewise with the derivatives; and
    [finished_steps] is the number of those positions. *)
Theorem grid_is_sum_over_every_nth (gaussPotential : Q -> Q -> Q -> potential1D)
    (orig : potential1D) (A sg : Q) (n : Z) (lo hi : Q) (nb : Z)
    (self0 self : metadynamicsPotential) (xs : list Q) (i : nat) :
  __init__ orig A sg n lo hi nb = Ok self0 -> n <> 0%Z ->
  run gaussPotential self0 xs = Ok self ->
  (i < Z.to_nat nb)%nat ->
  finished_steps self = Z.of_nat (length (every_nth n xs)) /\
  nth i (bias_grid_energy self) 0 ==
    Qsum (map (fun mu => V (gaussPotential A mu sg) (nth i (bin_centers self) 0))
              (every_nth n xs)) /\
  nth i (bias_grid_force self) 0 ==
    Qsum (map (fun mu => dVdpos (gaussPotential A mu sg) (nth i (bin_centers self) 0))
              (every_nth n xs)).
Proof.
  intros Hinit Hn Hrun Hi.
  destruct (run_summary gaussPotential _ _ _ _ _ _ _ _ Hinit Hn xs)
    as (s & Hrun' & _ & (_ & _ & _ & _ & Hcen) & _ & _ & Hcount & Hsum).
  rewrite Hrun in Hrun'. apply Ok_inj in Hrun'. subst s.
  pose proof (init_ok_bins _ _ _ _ _ _ _ _ Hinit) as Hnb.
  destruct (init_positive orig A sg n lo hi nb Hnb) as (c & _ & Hl & E).
  rewrite E in Hinit. apply Ok_inj in Hinit.
  assert (Hi0 : (i < length (bin_centers self0))%nat) by (subst self0; cbn; lia).
  destruct (Hsum i Hi0) as [Se Sf].
  split; [exact Hcount|].
  rewrite Se, Sf, Hcen. unfold kernel_at, kernel_force_at.
  subst self0. cbn [amplitude sigma bin_centers]. split; reflexivity.
Qed.

(** * The classes that accumulate sympy expressions *)

Lemma inject_Z_plus_one (q : Z) : inject_Z (q + 1) == inject_Z q + 1.
Proof. rewrite inject_Z_plus. reflexivity. Qed.

Section TimeDependent.

Variable diff : (Q -> Q) -> Q -> Q.

Lemma timedependend_run_app (self : timedependendBias.object) (xs ys : list Q) :
  timedependendBias.run diff self (xs ++ ys) =
  (self' <- timedependendBias.run diff self xs ;; timedependendBias.run diff self' ys).
Proof.
  revert self. induction xs as [|x xs IH]; intros self; cbn; [reflexivity|].
  destruct (timedependendBias.check_for_metastep diff self x) as [s|]; cbn [bind];
    [apply IH|reflexivity].
Qed.

Lemma timedependend_run_positions (xs xs' : list Q) :
  length xs = length xs' ->
  forall self, timedependendBias.run diff self xs = timedependendBias.run diff self xs'.
Proof.
  revert xs'. induction xs as [|x xs IH]; intros [|x' xs'] Hlen self;
    cbn in Hlen; try discriminate; [reflexivity|].
  cbn [timedependendBias.run].
  change (timedependendBias.check_for_metastep diff self x')
    with (timedependendBias.check_for_metastep diff self x).
  destruct (timedependendBias.check_for_metastep diff self x) as [s|]; cbn [bind];
    [apply IH; lia|reflexivity].
Qed.

Lemma timedependend_summary (orig add : potential1D) (n : Z) :
  (1 <= n)%Z ->
  forall xs, exists self,
    timedependendBias.run diff (timedependendBias.__init__ diff orig add n) xs = Ok self /\
    timedependendBias.n_trigger self = n /\
    timedependendBias.addPotential self = add /\
    timedependendBias.current_n self = (1 + Z.of_nat (length xs) mod n)%Z /\
    timedependendBias.dVdpos self = diff (timedependendBias.V self) /\
    forall r, timedependendBias.V self r ==
              V orig r + inject_Z (Z.of_nat (length xs) / n) * V add r.
Proof.
  intros Hn. assert (Hpos : (0 < n)%Z) by lia.
  induction xs as [|x xs IH] using rev_ind.
  - eexists. split; [reflexivity|].
    cbn [timedependendBias.__init__ timedependendBias.n_trigger
         timedependendBias.addPotential timedependendBias.current_n
         timedependendBias.dVdpos timedependendBias.V length Z.of_nat].
    rewrite Zmod_0_l, Zdiv_0_l. repeat split; try reflexivity.
    intros r. change (inject_Z 0) with 0. ring.
  - destruct IH as (self & Hrun & Hnt & Hadd & Hcur & Hdiff & HV).
    rewrite timedependend_run_app, Hrun. cbn [bind timedependendBias.run].
    unfold timedependendBias.check_for_metastep, py_mod.
    rewrite Hnt. replace (n =? 0)%Z with false by (symmetry; apply Z.eqb_neq; lia).
    cbn [bind]. rewrite Hcur, counter_guard by exact Hpos.
    rewrite length_app. cbn [length].
    replace (Z.of_nat (length xs + 1)) with (Z.of_nat (length xs) + 1)%Z by lia.
    destruct ((Z.of_nat (length xs) + 1) mod n =? 0)%Z eqn:Eg.
    + apply Z.eqb_eq in Eg. destruct (succ_mod_zero _ _ Hpos Eg) as [_ Hd].
      eexists. split; [reflexivity|].
      cbn [timedependendBias.set_current_n timedependendBias._update_potential
           timedependendBias.n_trigger timedependendBias.addPotential
           timedependendBias.current_n timedependendBias.dVdpos timedependendBias.V].
      rewrite Eg, Hd.
      repeat split; try assumption; try reflexivity.
      intros r. rewrite HV, Hadd, inject_Z_plus_one. ring.
    + apply Z.eqb_neq in Eg. destruct (succ_mod_nonzero _ _ Hpos Eg) as [Hm Hd].
      eexists. split; [reflexivity|].
      cbn [timedependendBias.set_current_n
           timedependendBias.n_trigger timedependendBias.addPotential
           timedependendBias.current_n timedependendBias.dVdpos timedependendBias.V].
      rewrite Hm, Hd.
      repeat split; try assumption; try lia.
Qed.

End TimeDependent.

(** X13: [timedependendBias] with a trigger interval [n >= 1]: after [k]
    calls of [check_for_metastep] the potential is the unbiased one plus
    [k / n] copies of [addPotential]; the positions passed to the calls
    have no influence on the state, and [dVdpos] is the derivative of the
    current potential. *)
Theorem timedependend_bias_counts_copies (diff : (Q -> Q) -> Q -> Q)
    (orig add : potential1D) (n : Z) (xs xs' : list Q) (r : Q) :
  (1 <= n)%Z -> length xs = length xs' ->
  exists self,
    timedependendBias.run diff (timedependendBias.__init__ diff orig add n) xs = Ok self /\
    timedependendBias.run diff (timedependendBias.__init__ diff orig add n) xs' = Ok self /\
    timedependendBias.current_n self = (1 + Z.of_nat (length xs) mod n)%Z /\
    timedependendBias.V self r ==
      V orig r + inject_Z (Z.of_nat (length xs) / n) * V add r /\
    timedependendBias.dVdpos self = diff (timedependendBias.V self).
Proof.
  intros Hn Hlen.
  destruct (timedependend_summary diff orig add n Hn xs)
    as (self & Hrun & _ & _ & Hcur & Hdiff & HV).
  exists self. split; [exact Hrun|].
  split; [rewrite <- (timedependend_run_positions diff xs xs' Hlen); exact Hrun|].
  auto.
Qed.

Section SympyMode.

Variable diff : (Q -> Q) -> Q -> Q.
Variable gaussPotential : Q -> Q -> Q -> potential1D.

Lemma sympy_run_app (self : metadynamicsPotentialSympy.object) (xs ys : list Q) :
  metadynamicsPotentialSympy.run diff gaussPotential self (xs ++ ys) =
  (self' <- metadynamicsPotentialSympy.run diff gaussPotential self xs ;;
   metadynamicsPotentialSympy.run diff gaussPotential self' ys).
Proof.
  revert self. induction xs as [|x xs IH]; intros self; cbn; [reflexivity|].
  destruct (metadynamicsPotentialSympy.check_for_metastep diff gaussPotential self x)
    as [s|]; cbn [bind]; [apply IH|reflexivity].
Qed.

Lemma sympy_summary (orig : potential1D) (A sg : Q) (n : Z) :
  (1 <= n)%Z ->
  forall xs, exists self,
    metadynamicsPotentialSympy.run diff gaussPotential
      (metadynamicsPotentialSympy.__init__ diff orig A sg n) xs = Ok self /\
    metadynamicsPotentialSympy.n_trigger self = n /\
    metadynamicsPotentialSympy.amplitude self = A /\
    metadynamicsPotentialSympy.sigma self = sg /\
    metadynamicsPotentialSympy.current_n self = (1 + Z.of_nat (length xs) mod n)%Z /\
    metadynamicsPotentialSympy.finished_steps self = (Z.of_nat (length xs) / n)%Z /\
    metadynamicsPotentialSympy.dVdpos self = diff (metadynamicsPotentialSympy.V self) /\
    forall r, metadynamicsPotentialSympy.V self r ==
              V orig r +
              Qsum (map (fun mu => V (gaussPotential A mu sg) r) (every_nth n xs)).
Proof.
  intros Hn. assert (Hpos : (0 < n)%Z) by lia.
  induction xs as [|x xs IH] using rev_ind.
  - eexists. split; [reflexivity|].
    cbn [metadynamicsPotentialSympy.__init__ metadynamicsPotentialSympy.n_trigger
         metadynamicsPotentialSympy.amplitude metadynamicsPotentialSympy.sigma
         metadynamicsPotentialSympy.current_n metadynamicsPotentialSympy.finished_steps
         metadynamicsPotentialSympy.dVdpos metadynamicsPotentialSympy.V
         length Z.of_nat every_nth every_nth_from map].
    rewrite Zmod_0_l, Zdiv_0_l. repeat split; try reflexivity.
    intros r. unfold Qsum. cbn [fold_right]. ring.
  - destruct IH as (self & Hrun & Hnt & HA & Hsg & Hcur & Hfin & Hdiff & HV).
    rewrite sympy_run_app, Hrun. cbn [bind metadynamicsPotentialSympy.run].
    unfold metadynamicsPotentialSympy.check_for_metastep, py_mod.
    rewrite Hnt. replace (n =? 0)%Z with false by (symmetry; apply Z.eqb_neq; lia).
    cbn [bind]. rewrite Hcur, counter_guard by exact Hpos.
    rewrite every_nth_snoc, length_app. cbn [length].
    replace (Z.of_nat (length xs + 1)) with (Z.of_nat (length xs) + 1)%Z by lia.
    destruct ((Z.of_nat (length xs) + 1) mod n =? 0)%Z eqn:Eg.
    + apply Z.eqb_eq in Eg. destruct (succ_mod_zero _ _ Hpos Eg) as [_ Hd].
      eexists. split; [reflexivity|].
      cbn [metadynamicsPotentialSympy.set_counters
           metadynamicsPotentialSympy._update_potential
           metadynamicsPotentialSympy.n_trigger
           metadynamicsPotentialSympy.amplitude metadynamicsPotentialSympy.sigma
           metadynamicsPotentialSympy.current_n metadynamicsPotentialSympy.finished_steps
           metadynamicsPotentialSympy.dVdpos metadynamicsPotentialSympy.V].
      rewrite Eg, Hd, Hfin.
      repeat split; try assumption; try reflexivity.
      intros r. rewrite HV, HA, Hsg, map_app. cbn [map]. rewrite Qsum_snoc. ring.
    + apply Z.eqb_neq in Eg. destruct (succ_mod_nonzero _ _ Hpos Eg) as [Hm Hd].
      eexists. split; [reflexivity|].
      cbn [metadynamicsPotentialSympy.set_counters
           metadynamicsPotentialSympy.n_trigger
           metadynamicsPotentialSympy.amplitude metadynamicsPotentialSympy.sigma
           metadynamicsPotentialSympy.current_n metadynamicsPotentialSympy.finished_steps
           metadynamicsPotentialSympy.dVdpos metadynamicsPotentialSympy.V].
      rewrite Hm, Hd, Hfin, app_nil_r.
      repeat split; try assumption; try lia.
Qed.

End SympyMode.

(** X14: [metadynamicsPotentialSympy] with a trigger interval [n >= 1]:
    after a run the potential is the unbiased one plus the kernels centered
    at the positions of every [n]-th step, [finished_steps] is [k / n]
    after [k] calls, and [dVdpos] is the derivative of the current
    potential. *)
Theorem sympy_mode_accumulates_kernels (diff : (Q -> Q) -> Q -> Q)
    (gaussPotential : Q -> Q -> Q -> potential1D)
    (orig : potential1D) (A sg : Q) (n : Z) (xs : list Q) (r : Q) :
  (1 <= n)%Z ->
  exists self,
    metadynamicsPotentialSympy.run diff gaussPotential
      (metadynamicsPotentialSympy.__init__ diff orig A sg n) xs = Ok self /\
    metadynamicsPotentialSympy.current_n self = (1 + Z.of_nat (length xs) mod n)%Z /\
    metadynamicsPotentialSympy.finished_steps self = (Z.of_nat (length xs) / n)%Z /\
    metadynamicsPotentialSympy.V self r ==
      V orig r + Qsum (map (fun mu => V (gaussPotential A mu sg) r) (every_nth n xs)) /\
    metadynamicsPotentialSympy.dVdpos self = diff (metadynamicsPotentialSympy.V self).
Proof.
  intros Hn.
  destruct (sympy_summary diff gaussPotential orig A sg n Hn xs)
    as (self & Hrun & _ & _ & _ & Hcur & Hfin & Hdiff & HV).
  exists self. auto.
Qed.

(** X15: the grid and the sympy accumulation agree: driven through the
    same positions with the same parameters, the two objects have the same
    counters, and at every bin center the unbiased energy plus the grid
    entry of the bin, which is what [ene] of the grid object returns there,
    equals the accumulated potential of the sympy object. *)
Theorem grid_agrees_with_sympy_mode (diff : (Q -> Q) -> Q -> Q)
    (gaussPotential : Q -> Q -> Q -> potential1D)
    (orig : potential1D) (A sg : Q) (n : Z) (lo hi : Q) (nb : Z)
    (grid0 grid : metadynamicsPotential) (xs : list Q) (i : nat) :
  __init__ orig A sg n lo hi nb = Ok grid0 ->
  run gaussPotential grid0 xs = Ok grid ->
  (1 <= n)%Z -> lo < hi -> (i < Z.to_nat nb)%nat ->
  exists expr e,
    metadynamicsPotentialSympy.run diff gaussPotential
      (metadynamicsPotentialSympy.__init__ diff orig A sg n) xs = Ok expr /\
    current_n grid = metadynamicsPotentialSympy.current_n expr /\
    finished_steps grid = metadynamicsPotentialSympy.finished_steps expr /\
    V orig (nth i (bin_centers grid) 0) + nth i (bias_grid_energy grid) 0 ==
      metadynamicsPotentialSympy.V expr (nth i (bin_centers grid) 0) /\
    ene grid (Scalar (nth i (bin_centers grid) 0)) = Ok (Scalar e) /\
    e == metadynamicsPotentialSympy.V expr (nth i (bin_centers grid) 0).
Proof.
  intros Hinit Hrun Hn Hlt Hi.
  assert (Hn0 : n <> 0%Z) by lia.
  destruct (sympy_summary diff gaussPotential orig A sg n Hn xs)
    as (expr & Hrun' & _ & _ & _ & Hcur' & Hfin' & _ & HV).
  destruct (run_summary gaussPotential _ _ _ _ _ _ _ _ Hinit Hn0 xs)
    as (s & Hs & Hwf & Hcfg & Hcur & Hfin & _ & Hsum).
  rewrite Hrun in Hs. apply Ok_inj in Hs. subst s.
  rewrite Z.abs_eq in Hcur, Hfin by lia.
  pose proof (init_ok_bins _ _ _ _ _ _ _ _ Hinit) as Hnb.
  destruct (init_positive orig A sg n lo hi nb Hnb) as (c & _ & Hl & E).
  pose proof Hinit as Hinit'. rewrite E in Hinit'. apply Ok_inj in Hinit'.
  assert (Hlen0 : length (bin_centers grid0) = Z.to_nat nb) by (subst grid0; exact Hl).
  assert (Hi0 : (i < length (bin_centers grid0))%nat) by lia.
  destruct Hcfg as (Eo & _ & _ & _ & Ec).
  assert (Horig : origPotential grid = orig) by (rewrite Eo; subst grid0; reflexivity).
  destruct (Hsum i Hi0) as [Se _].
  assert (Hbias : V orig (nth i (bin_centers grid) 0) + nth i (bias_grid_energy grid) 0 ==
                  metadynamicsPotentialSympy.V expr (nth i (bin_centers grid) 0)).
  { rewrite HV, Se, Ec. unfold kernel_at.
    replace (amplitude grid0) with A by (subst grid0; reflexivity).
    replace (sigma grid0) with sg by (subst grid0; reflexivity).
    reflexivity. }
  assert (Hidx : nearest_index (bin_centers grid) (nth i (bin_centers grid) 0) = i).
  { rewrite Ec.
    pose proof (init_center_formula _ _ _ _ _ _ _ _ i Hinit Hi) as Ci.
    pose proof (bin_width_pos lo hi nb Hlt Hnb) as Hw.
    apply (uniform_grid_lookup _ lo (bin_width lo hi nb)).
    - eapply init_centers_increasing; eassumption.
    - exact Hw.
    - intros j Hj. eapply init_center_formula; [exact Hinit|]. lia.
    - exact Hi0.
    - rewrite Ci. lra.
    - rewrite Ci. lra. }
  exists expr. eexists.
  split; [exact Hrun'|]. split; [congruence|]. split; [congruence|].
  split; [exact Hbias|].
  split; [rewrite (ene_scalar grid _ Hwf), Hidx, Horig; reflexivity|].
  exact Hbias.
Qed.

(** * The methods of the base class *)

(** Every name listed as built-in is accepted by the reading of names the
    constructor is modelled with. *)
Lemma load_global_load_name (locals : _bias_baseclass.namespace) (x : string)
    (v : _bias_baseclass.pyobj) :
  BiasBaseclassMethods.load_global locals x = Ok v ->
  _bias_baseclass.load_name locals x = Ok v.
Proof.
  unfold BiasBaseclassMethods.load_global, _bias_baseclass.load_name.
  destruct (_bias_baseclass.lookup locals x); [auto|].
  destruct (_bias_baseclass.lookup _bias_baseclass.module_globals x); [auto|].
  destruct (BiasBaseclassMethods.is_builtin_name x) eqn:E; [|discriminate].
  intros H. replace (_bias_baseclass.is_builtin x) with true; [exact H|].
  symmetry. unfold BiasBaseclassMethods.is_builtin_name in E.
  rewrite existsb_app in E. unfold _bias_baseclass.is_builtin.
  apply orb_true_iff in E. apply orb_true_iff.
  destruct E as [E|E]; [left; exact E|right].
  apply existsb_exists in E. destruct E as (y & Hy & Exy).
  apply String.eqb_eq in Exy. subst y.
  assert (Hall : forallb _bias_baseclass.starts_with_capital
                   BiasBaseclassMethods.exception_names = true) by reflexivity.
  rewrite forallb_forall in Hall. apply Hall. exact Hy.
Qed.

(** X16: [return_bias_action] never returns: it raises NameError, for the
    name [langevinIntegrator] is bound nowhere, or, on a receiver without
    the attribute [integrator], AttributeError. *)
Theorem return_bias_action_never_returns
    (isinstance : _bias_baseclass.pyobj -> _bias_baseclass.pyobj -> bool)
    (action : _bias_baseclass.namespace -> _bias_baseclass.pyobj)
    (instance : _bias_baseclass.namespace) (self : _bias_baseclass.pyobj) :
  BiasBaseclassMethods.return_bias_action isinstance action instance self =
    match _bias_baseclass.lookup instance "integrator" with
    | Some _ => Raise NameError
    | None => Raise AttributeError
    end.
Proof.
  unfold BiasBaseclassMethods.return_bias_action, BiasBaseclassMethods.getattr.
  cbn [bind]. change (BiasBaseclassMethods.load_global [("self"%string, self)] "isinstance")
    with (Ok (_bias_baseclass.PyObject "isinstance")).
  cbn [bind].
  destruct (_bias_baseclass.lookup instance "integrator"); reflexivity.
Qed.

(** X17: [return_target_action], [return_bias_energy] and
    [return_path_correction_term] raise NameError on every receiver: the
    names [Pass] and [system] are neither local, global nor built-in. *)
Theorem reweighting_methods_raise_name_error
    (reweight : _bias_baseclass.pyobj -> _bias_baseclass.pyobj)
    (self : _bias_baseclass.pyobj) :
  BiasBaseclassMethods.return_target_action self = Raise NameError /\
  BiasBaseclassMethods.return_bias_energy self = Raise NameError /\
  BiasBaseclassMethods.return_path_correction_term reweight self = Raise NameError.
Proof. repeat split. Qed.

(** * The perturbed system *)

Import PerturbedSystem PerturbedSystemTrajectory.


(** X18: after [set_current_state], [_update_dHdLambda],
    [update_system_properties] and [append_state] the current state
    repeats the nine [_current...] attributes of the system. *)
Theorem mutators_leave_state_in_sync (Number : Type)
    (_update_energies _update_temperature : perturbedSystem Number -> perturbedSystem Number)
    (dvdlam : Number -> Number) (self : perturbedSystem Number)
    (trajectory : list (lambdaState Number))
    (p v f t l d : Number) :
  in_sync Number (set_current_state Number _update_energies dvdlam self p v f t l d) /\
  in_sync Number (fst (_update_dHdLambda Number dvdlam self)) /\
  in_sync Number
    (update_system_properties Number _update_energies _update_temperature dvdlam self) /\
  exists after,
    append_state Number _update_energies _update_temperature dvdlam
      {| fields := self; _trajectory := trajectory |} p v f l = Ok after /\
    in_sync Number (fields Number after).
Proof.
  split; [reflexivity|]. split; [reflexivity|]. split; [reflexivity|].
  eexists. split; reflexivity.
Qed.

(** X19: [set_current_state] discards its argument [current_dHdLambda]:
    the stored value and the one in the current state are
    [potential.dvdlam] at the new position.  The inherited
    [_update_energies] is assumed to leave the position alone. *)
Theorem set_current_state_recomputes_dHdLambda (Number : Type)
    (_update_energies : perturbedSystem Number -> perturbedSystem Number)
    (dvdlam : Number -> Number) (self : perturbedSystem Number)
    (p v f t l d : Number) :
  (forall s, _currentPosition Number (_update_energies s) = _currentPosition Number s) ->
  let after := set_current_state Number _update_energies dvdlam self p v f t l d in
  _currentPosition Number after = p /\
  _currentdHdLambda Number after = dvdlam p /\
  option_map (dhdlam Number) (_currentState Number after) = Some (dvdlam p).
Proof.
  intros Hframe after. subst after. unfold set_current_state.
  cbn [_update_dHdLambda update_current_state fst _currentPosition _currentdHdLambda
       _currentState option_map dhdlam].
  rewrite Hframe. cbn. auto.
Qed.


(** X21: the row [append_state] appends holds the four arguments: the
    position, the velocity (unlike [set_current_state], which stores the
    force there), the forces and lambda, with [dhdlam] computed at the new
    position.  The inherited [_update_energies] and [_update_temperature]
    are assumed to leave those four attributes alone. *)
Theorem append_state_stores_arguments (Number : Type)
    (_update_energies _update_temperature : perturbedSystem Number -> perturbedSystem Number)
    (dvdlam : Number -> Number) (self : tracked Number)
    (new_position new_velocity new_forces new_lambda : Number) :
  (forall s,
     _currentPosition Number (_update_energies s) = _currentPosition Number s /\
     _currentVelocities Number (_update_energies s) = _currentVelocities Number s /\
     _currentForce Number (_update_energies s) = _currentForce Number s /\
     _currentLambda Number (_update_energies s) = _currentLambda Number s) ->
  (forall s,
     _currentPosition Number (_update_temperature s) = _currentPosition Number s /\
     _currentVelocities Number (_update_temperature s) = _currentVelocities Number s /\
     _currentForce Number (_update_temperature s) = _currentForce Number s /\
     _currentLambda Number (_update_temperature s) = _currentLambda Number s) ->
  exists row after,
    append_state Number _update_energies _update_temperature dvdlam self
      new_position new_velocity new_forces new_lambda = Ok after /\
    _trajectory Number after = _trajectory Number self ++ [row] /\
    position Number row = new_position /\
    velocity Number row = new_velocity /\
    dhdpos Number row = new_forces /\
    lam Number row = new_lambda /\
    dhdlam Number row = dvdlam new_position.
Proof.
  intros He Ht.
  eexists. eexists. split; [reflexivity|].
  split; [reflexivity|].
  cbn [_update_dHdLambda update_current_state fst position velocity dhdpos lam dhdlam
       _currentPosition _currentVelocities _currentForce _currentLambda].
  set (s1 := {| _currentPosition := new_position |}).
  destruct (He (_update_temperature s1)) as (E1 & E2 & E3 & E4).
  destruct (Ht s1) as (T1 & T2 & T3 & T4).
  rewrite E1, E2, E3, E4, T1, T2, T3, T4. cbn. auto 10.
Qed.

(** * Evaluations of the further properties *)


Lemma bin_centers_closed_form_witness :
  __init__ harmonic (1 # 10) (1 # 10) 3 0 10 4 = Ok fresh4 /\
  run bump fresh4 [1; 2; 3] = Ok (after_calls [1; 2; 3]) /\
  (2 < Z.to_nat 4)%nat /\
  length (bin_centers (after_calls [1; 2; 3])) = Z.to_nat 4 /\
  nth 2 (bin_centers (after_calls [1; 2; 3])) 0 ==
    0 + bin_width 0 10 4 * (inject_Z (Z.of_nat 2) + (1 # 2)).
Proof.
  assert (Hrun : run bump fresh4 [1; 2; 3] = Ok (after_calls [1; 2; 3]))
    by (vm_compute; reflexivity).
  split; [reflexivity|]. split; [exact Hrun|]. split; [cbn; lia|].
  apply (bin_centers_closed_form bump harmonic (1 # 10) (1 # 10) 3 0 10 4 fresh4
           (after_calls [1; 2; 3]) [1; 2; 3] 2); [reflexivity|exact Hrun|cbn; lia].
Defined.

Lemma bin_centers_increasing_inside_witness :
  __init__ harmonic (1 # 10) (1 # 10) 3 0 10 4 = Ok fresh4 /\ 0 < 10 /\
  strictly_increasing (bin_centers fresh4) = true /\
  Forall (fun c => 0 < c /\ c < 10) (bin_centers fresh4).
Proof.
  split; [reflexivity|]. split; [reflexivity|].
  apply (bin_centers_increasing_inside harmonic (1 # 10) (1 # 10) 3 0 10 4 fresh4);
    reflexivity.
Defined.

Lemma force_sum_decomposition_witness :
  reachable bump (after_calls [1; 2; 3]) /\
  exists i e f,
    _find_nearest (bin_centers (after_calls [1; 2; 3])) (Scalar 3) = Ok (Scalar i) /\
    getitem1 (bias_grid_energy (after_calls [1; 2; 3])) i = Ok e /\
    getitem1 (bias_grid_force (after_calls [1; 2; 3])) i = Ok f /\
    ene (after_calls [1; 2; 3]) (Scalar 3) =
      Ok (Scalar (V (origPotential (after_calls [1; 2; 3])) 3 + e)) /\
    force (after_calls [1; 2; 3]) (Scalar 3) =
      Ok (Scalar (dVdpos (origPotential (after_calls [1; 2; 3])) 3 + f)).
Proof.
  assert (Hr : reachable bump (after_calls [1; 2; 3]))
    by (apply after_calls_reachable; vm_compute; reflexivity).
  split; [exact Hr|].
  exact (force_sum_decomposition bump (after_calls [1; 2; 3]) 3 Hr).
Defined.

Lemma force_singleton_witness :
  reachable bump (after_calls [1; 2; 3]) /\
  _find_nearest (bin_centers (after_calls [1; 2; 3])) (Array [3]) =
    Ok (Array [nearest_index (bin_centers (after_calls [1; 2; 3])) 3]) /\
  force (after_calls [1; 2; 3]) (Array [3]) = force (after_calls [1; 2; 3]) (Scalar 3) /\
  ene (after_calls [1; 2; 3]) (Array [3]) = ene (after_calls [1; 2; 3]) (Scalar 3) /\
  exists f, force (after_calls [1; 2; 3]) (Array [3]) = Ok (Scalar f).
Proof.
  assert (Hr : reachable bump (after_calls [1; 2; 3]))
    by (apply after_calls_reachable; vm_compute; reflexivity).
  split; [exact Hr|].
  exact (force_singleton bump (after_calls [1; 2; 3]) 3 Hr).
Defined.

Lemma ene_sequence_elementwise_witness :
  reachable bump (after_calls [1; 2; 3]) /\
  exists es,
    ene (after_calls [1; 2; 3]) (Array (3 :: 4 :: [8])) = Ok (Array es) /\
    length es = length (3 :: 4 :: [8]) /\
    forall i, (i < length (3 :: 4 :: [8]))%nat ->
      ene (after_calls [1; 2; 3]) (Scalar (nth i (3 :: 4 :: [8]) 0)) =
        Ok (Scalar (nth i es 0)).
Proof.
  assert (Hr : reachable bump (after_calls [1; 2; 3]))
    by (apply after_calls_reachable; vm_compute; reflexivity).
  split; [exact Hr|].
  exact (ene_sequence_elementwise bump (after_calls [1; 2; 3]) 3 4 [8] Hr).
Defined.

Lemma unbiased_before_first_deposit_witness :
  __init__ harmonic (1 # 10) (1 # 10) 3 0 10 4 = Ok fresh4 /\
  (Z.of_nat (length [1; 2]) < 3)%Z /\
  exists self,
    run bump fresh4 [1; 2] = Ok self /\
    self = set_counters fresh4 (1 + Z.of_nat (length [1; 2])) 0 /\
    ene self (Scalar 5) = Ok (Scalar (V harmonic 5 + 0)) /\
    force self (Scalar 5) = Ok (Scalar (dVdpos harmonic 5 + 0)).
Proof.
  split; [reflexivity|]. split; [cbn; lia|].
  apply (unbiased_before_first_deposit bump harmonic (1 # 10) (1 # 10) 3 0 10 4
           fresh4 [1; 2] 5); [reflexivity|cbn; lia].
Defined.

Lemma grid_is_sum_over_every_nth_witness :
  __init__ harmonic (1 # 10) (1 # 10) 3 0 10 4 = Ok fresh4 /\ 3%Z <> 0%Z /\
  run bump fresh4 [1; 2; 3; 4; 5; 6] = Ok (after_calls [1; 2; 3; 4; 5; 6]) /\
  (1 < Z.to_nat 4)%nat /\
  finished_steps (after_calls [1; 2; 3; 4; 5; 6]) =
    Z.of_nat (length (every_nth 3 [1; 2; 3; 4; 5; 6])) /\
  nth 1 (bias_grid_energy (after_calls [1; 2; 3; 4; 5; 6])) 0 ==
    Qsum (map (fun mu => V (bump (1 # 10) mu (1 # 10))
                           (nth 1 (bin_centers (after_calls [1; 2; 3; 4; 5; 6])) 0))
              (every_nth 3 [1; 2; 3; 4; 5; 6])) /\
  nth 1 (bias_grid_force (after_calls [1; 2; 3; 4; 5; 6])) 0 ==
    Qsum (map (fun mu => dVdpos (bump (1 # 10) mu (1 # 10))
                           (nth 1 (bin_centers (after_calls [1; 2; 3; 4; 5; 6])) 0))
              (every_nth 3 [1; 2; 3; 4; 5; 6])).
Proof.
  assert (Hrun : run bump fresh4 [1; 2; 3; 4; 5; 6] = Ok (after_calls [1; 2; 3; 4; 5; 6]))
    by (vm_compute; reflexivity).
  split; [reflexivity|]. split; [discriminate|]. split; [exact Hrun|].
  split; [cbn; lia|].
  apply (grid_is_sum_over_every_nth bump harmonic (1 # 10) (1 # 10) 3 0 10 4 fresh4
           (after_calls [1; 2; 3; 4; 5; 6]) [1; 2; 3; 4; 5; 6] 1);
    [reflexivity|discriminate|exact Hrun|cbn; lia].
Defined.

Lemma schedule_of_absolute_interval_witness :
  __init__ harmonic (1 # 10) (1 # 10) (- 3) 0 10 4 = Ok fresh4_negative /\
  (- 3)%Z <> 0%Z /\
  exists self self',
    run bump fresh4_negative [1; 2] = Ok self /\
    (1 <= current_n self <= Z.abs (- 3))%Z /\
    finished_steps self = (Z.of_nat (length [1; 2]%Q) / Z.abs (- 3))%Z /\
    check_for_metastep bump self 3 = Ok self' /\
    (if ((Z.of_nat (length [1; 2]%Q) + 1) mod Z.abs (- 3) =? 0)%Z
     then fires bump self 3 self'
     else idles self self').
Proof.
  split; [reflexivity|]. split; [discriminate|].
  apply (schedule_of_absolute_interval bump harmonic (1 # 10) (1 # 10) (- 3) 0 10 4
           fresh4_negative [1; 2] 3); [reflexivity|discriminate].
Defined.

Lemma zero_interval_raises_witness :
  __init__ harmonic (1 # 10) (1 # 10) 0 0 10 4 = Ok zero_interval_object /\
  check_for_metastep bump zero_interval_object 1 = Raise ZeroDivisionError /\
  run bump zero_interval_object (1 :: [2; 3]) = Raise ZeroDivisionError.
Proof.
  split; [reflexivity|].
  apply (zero_interval_raises bump harmonic (1 # 10) (1 # 10) 0 10 4
           zero_interval_object 1 [2; 3]); reflexivity.
Defined.

Lemma run_keeps_configuration_witness :
  reachable bump fresh4 /\
  run bump fresh4 [1; 2; 3] = Ok (after_calls [1; 2; 3]) /\
  same_configuration fresh4 (after_calls [1; 2; 3]) /\
  length (bias_grid_energy (after_calls [1; 2; 3])) = length (bin_centers fresh4) /\
  length (bias_grid_force (after_calls [1; 2; 3])) = length (bin_centers fresh4) /\
  (finished_steps fresh4 <= finished_steps (after_calls [1; 2; 3]%Q) <=
     finished_steps fresh4 + Z.of_nat (length [1; 2; 3]%Q))%Z.
Proof.
  assert (Hrun : run bump fresh4 [1; 2; 3] = Ok (after_calls [1; 2; 3]))
    by (vm_compute; reflexivity).
  split; [exact fresh4_reachable|]. split; [exact Hrun|].
  exact (run_keeps_configuration bump fresh4 (after_calls [1; 2; 3]) [1; 2; 3]
           fresh4_reachable Hrun).
Defined.

Lemma sympy_mode_accumulates_kernels_witness :
  (1 <= 3)%Z /\
  exists self,
    metadynamicsPotentialSympy.run example_diff bump
      (metadynamicsPotentialSympy.__init__ example_diff harmonic (1 # 10) (1 # 10) 3)
      [1; 2; 3; 4; 5; 6] = Ok self /\
    metadynamicsPotentialSympy.current_n self =
      (1 + Z.of_nat (length [1; 2; 3; 4; 5; 6]%Q) mod 3)%Z /\
    metadynamicsPotentialSympy.finished_steps self =
      (Z.of_nat (length [1; 2; 3; 4; 5; 6]%Q) / 3)%Z /\
    metadynamicsPotentialSympy.V self 5 ==
      V harmonic 5 +
      Qsum (map (fun mu => V (bump (1 # 10) mu (1 # 10)) 5)
                (every_nth 3 [1; 2; 3; 4; 5; 6])) /\
    metadynamicsPotentialSympy.dVdpos self =
      example_diff (metadynamicsPotentialSympy.V self).
Proof.
  split; [lia|].
  apply (sympy_mode_accumulates_kernels example_diff bump harmonic (1 # 10) (1 # 10) 3
           [1; 2; 3; 4; 5; 6] 5). lia.
Defined.

Lemma grid_agrees_with_sympy_mode_witness :
  __init__ harmonic (1 # 10) (1 # 10) 3 0 10 4 = Ok fresh4 /\
  run bump fresh4 [1; 2; 3] = Ok (after_calls [1; 2; 3]) /\
  (1 <= 3)%Z /\ 0 < 10 /\ (1 < Z.to_nat 4)%nat /\
  exists expr e,
    metadynamicsPotentialSympy.run example_diff bump
      (metadynamicsPotentialSympy.__init__ example_diff harmonic (1 # 10) (1 # 10) 3)
      [1; 2; 3] = Ok expr /\
    current_n (after_calls [1; 2; 3]) = metadynamicsPotentialSympy.current_n expr /\
    finished_steps (after_calls [1; 2; 3]) =
      metadynamicsPotentialSympy.finished_steps expr /\
    V harmonic (nth 1 (bin_centers (after_calls [1; 2; 3])) 0) +
      nth 1 (bias_grid_energy (after_calls [1; 2; 3])) 0 ==
      metadynamicsPotentialSympy.V expr (nth 1 (bin_centers (after_calls [1; 2; 3])) 0) /\
    ene (after_calls [1; 2; 3]) (Scalar (nth 1 (bin_centers (after_calls [1; 2; 3])) 0)) =
      Ok (Scalar e) /\
    e == metadynamicsPotentialSympy.V expr (nth 1 (bin_centers (after_calls [1; 2; 3])) 0).
Proof.
  assert (Hrun : run bump fresh4 [1; 2; 3] = Ok (after_calls [1; 2; 3]))
    by (vm_compute; reflexivity).
  split; [reflexivity|]. split; [exact Hrun|]. split; [lia|].
  split; [reflexivity|]. split; [cbn; lia|].
  apply (grid_agrees_with_sympy_mode example_diff bump harmonic (1 # 10) (1 # 10) 3
           0 10 4 fresh4 (after_calls [1; 2; 3]) [1; 2; 3] 1);
    [reflexivity|exact Hrun|lia|reflexivity|cbn; lia].
Defined.

Lemma timedependend_bias_counts_copies_witness :
  (1 <= 2)%Z /\ length [1; 2; 3] = length [7; 8; 9] /\
  exists self,
    timedependendBias.run example_diff
      (timedependendBias.__init__ example_diff harmonic (bump (1 # 10) 5 (1 # 10)) 2)
      [1; 2; 3] = Ok self /\
    timedependendBias.run example_diff
      (timedependendBias.__init__ example_diff harmonic (bump (1 # 10) 5 (1 # 10)) 2)
      [7; 8; 9] = Ok self /\
    timedependendBias.current_n self = (1 + Z.of_nat (length [1; 2; 3]%Q) mod 2)%Z /\
    timedependendBias.V self 5 ==
      V harmonic 5 +
      inject_Z (Z.of_nat (length [1; 2; 3]%Q) / 2) * V (bump (1 # 10) 5 (1 # 10)) 5 /\
    timedependendBias.dVdpos self = example_diff (timedependendBias.V self).
Proof.
  split; [lia|]. split; [reflexivity|].
  apply (timedependend_bias_counts_copies example_diff harmonic
           (bump (1 # 10) 5 (1 # 10)) 2 [1; 2; 3] [7; 8; 9] 5); [lia|reflexivity].
Defined.

Lemma set_current_state_recomputes_dHdLambda_witness :
  (forall s,
     PerturbedSystem._currentPosition Q (example_update_energies s) =
       PerturbedSystem._currentPosition Q s) /\
  let after :=
    PerturbedSystem.set_current_state Q example_update_energies (fun r => 2 * r)
      example_system 1 7 3 298 0 40 in
  PerturbedSystem._currentPosition Q after = 1 /\
  PerturbedSystem._currentdHdLambda Q after = (fun r => 2 * r) 1 /\
  option_map (PerturbedSystem.dhdlam Q) (PerturbedSystem._currentState Q after) =
    Some ((fun r => 2 * r) 1).
Proof.
  assert (H : forall s,
     PerturbedSystem._currentPosition Q (example_update_energies s) =
       PerturbedSystem._currentPosition Q s) by (intros s; reflexivity).
  split; [exact H|].
  exact (set_current_state_recomputes_dHdLambda Q example_update_energies
           (fun r => 2 * r) example_system 1 7 3 298 0 40 H).
Defined.

Lemma append_state_stores_arguments_witness :
  (forall s,
     PerturbedSystem._currentPosition Q (example_update_energies s) =
       PerturbedSystem._currentPosition Q s /\
     PerturbedSystem._currentVelocities Q (example_update_energies s) =
       PerturbedSystem._currentVelocities Q s /\
     PerturbedSystem._currentForce Q (example_update_energies s) =
       PerturbedSystem._currentForce Q s /\
     PerturbedSystem._currentLambda Q (example_update_energies s) =
       PerturbedSystem._currentLambda Q s) /\
  (forall s,
     PerturbedSystem._currentPosition Q (example_update_temperature s) =
       PerturbedSystem._currentPosition Q s /\
     PerturbedSystem._currentVelocities Q (example_update_temperature s) =
       PerturbedSystem._currentVelocities Q s /\
     PerturbedSystem._currentForce Q (example_update_temperature s) =
       PerturbedSystem._currentForce Q s /\
     PerturbedSystem._currentLambda Q (example_update_temperature s) =
       PerturbedSystem._currentLambda Q s) /\
  exists row after,
    PerturbedSystemTrajectory.append_state Q example_update_energies
      example_update_temperature (fun r => 2 * r) example_tracked 1 7 3 (1 # 2) = Ok after /\
    PerturbedSystemTrajectory._trajectory Q after =
      PerturbedSystemTrajectory._trajectory Q example_tracked ++ [row] /\
    PerturbedSystem.position Q row = 1 /\
    PerturbedSystem.velocity Q row = 7 /\
    PerturbedSystem.dhdpos Q row = 3 /\
    PerturbedSystem.lam Q row = 1 # 2 /\
    PerturbedSystem.dhdlam Q row = (fun r => 2 * r) 1.
Proof.
  assert (He : forall s,
     PerturbedSystem._currentPosition Q (example_update_energies s) =
       PerturbedSystem._currentPosition Q s /\
     PerturbedSystem._currentVelocities Q (example_update_energies s) =
       PerturbedSystem._currentVelocities Q s /\
     PerturbedSystem._currentForce Q (example_update_energies s) =
       PerturbedSystem._currentForce Q s /\
     PerturbedSystem._currentLambda Q (example_update_energies s) =
       PerturbedSystem._currentLambda Q s) by (intros s; repeat split).
  assert (Ht : forall s,
     PerturbedSystem._currentPosition Q (example_update_temperature s) =
       PerturbedSystem._currentPosition Q s /\
     PerturbedSystem._currentVelocities Q (example_update_temperature s) =
       PerturbedSystem._currentVelocities Q s /\
     PerturbedSystem._currentForce Q (example_update_temperature s) =
       PerturbedSystem._currentForce Q s /\
     PerturbedSystem._currentLambda Q (example_update_temperature s) =
       PerturbedSystem._currentLambda Q s) by (intros s; repeat split).
  split; [exact He|]. split; [exact Ht|].
  exact (append_state_stores_arguments Q example_update_energies
           example_update_temperature (fun r => 2 * r) example_tracked 1 7 3 (1 # 2)
           He Ht).
Defined.
